(** * Confirmation Aggregation Engine: Cluster Scorer and Cross-Cluster Combiner

    A shallow embedding of [processBayesianConfirmation] (the Cluster Scorer),
    of the cumulative-score loop of [chatWithAnalyst] and of the [radarData]
    computation (the Cross-Cluster Combiner), with the properties the
    specification states about them.

    Numbers.  The source computes on JavaScript numbers (IEEE binary64).
    The development carries two embeddings of the Scorer, both written
    from the same source lines:

    - [F64]: the code on Rocq's primitive binary64 floats, whose
      [+ - * /] and comparisons are the IEEE operations JavaScript uses.
      Every run of this model is a run of the program, bit for bit; the
      properties that depend on rounding, overflow or on the outcome of a
      comparison of computed values are stated and proved here, from the
      specification of the primitive operations.
    - [Scorer]: exact rational arithmetic on [Q].  A division whose divisor
      is zero does not produce a finite number in JavaScript (it yields an
      infinity or NaN), so division is partial and the Scorer lives in the
      option monad; [None] stands for "an index was out of range or a
      non-finite value arose".  It carries the bounds that rounding to
      nearest preserves.

    The Combiner is embedded on binary64 numbers ([Combiner64]), over plain
    objects whose reads and writes see the members inherited from
    [Object.prototype] ([JsObject]).

    Around the engine the development also embeds the deterministic code
    that feeds and reads it: the scoring phase of [analyzeTopic]
    ([Report]), [generateWithRetry] ([Retry]), the labels, tooltip and
    expanded-cluster set of the evidence matrix ([Matrix]), the history kept
    by [App] ([History], [Migration]) and the page cursor of the PDF export
    ([Pdf]). *)

From Stdlib Require Import QArith Qminmax Lqa Lia List FloatClass PrimFloat.
From Stdlib Require SpecFloat FloatOps FloatAxioms.
From stdpp Require Import base option list gmap strings.

(** ** The Cluster Scorer in exact arithmetic *)

Module Scorer.

Local Open Scope Q_scope.

(** One element of [analysisData]. *)
Record Judgment := mkJudgment {
  hypothesis_id : string;
  Q_i : Q;
  U_i : Q
}.

(** [interface CalculationResult]; its field [hypothesis_id] is
    [res_hypothesis_id] here, the name being taken by [Judgment]. *)
Record CalculationResult := mkResult {
  res_hypothesis_id : string;
  prior_P_H : Q;
  likelihood_P_E_H : Q;
  catchall_P_E_NotH : Q;
  LR : Q
}.

(** The elements of the [priors] array: [{ id, val }]. *)
Record Prior := mkPrior {
  id : string;
  val : Q
}.

(** [a / b] on finite numbers: a finite quotient exactly when [b] is not
    zero. *)
Definition div (a b : Q) : option Q :=
  if Qeq_bool b 0 then None else Some (a / b).

(** [analysisData.reduce((sum, item) => sum + item.Q_i, 0)] *)
Definition sumQ (analysisData : list Judgment) : Q :=
  fold_left (fun sum item => sum + Q_i item) analysisData 0.

(** [sumQ === 0 ? 1 : sumQ] *)
Definition safeSumQ (analysisData : list Judgment) : Q :=
  if Qeq_bool (sumQ analysisData) 0 then 1 else sumQ analysisData.

(** [analysisData.map(item => ({ id: item.hypothesis_id, val: item.Q_i / safeSumQ }))] *)
Definition priors (analysisData : list Judgment) : option (list Prior) :=
  mapM (fun item =>
          v ← div (Q_i item) (safeSumQ analysisData);
          Some (mkPrior (hypothesis_id item) v))
       analysisData.

(** The inner loop [for (let j = 0; j < M; j++)], run over the remaining
    indices [js] with the accumulator [U_not_i]. *)
Fixpoint catchall_loop (analysisData : list Judgment) (ps : list Prior)
    (i : nat) (weightDenominator : Q) (js : list nat) (U_not_i : Q) : option Q :=
  match js with
  | [] => Some U_not_i
  | j :: js' =>
      if Nat.eqb i j then
        catchall_loop analysisData ps i weightDenominator js' U_not_i
      else
        P_Hj ← val <$> ps !! j;
        U_j ← U_i <$> analysisData !! j;
        w_j_i ← div P_Hj weightDenominator;
        catchall_loop analysisData ps i weightDenominator js'
                      (U_not_i + w_j_i * U_j)
  end.

(** [Math.min(Math.max(LR, 0.001), 1000)] *)
Definition clamp (lr : Q) : Q := Qmin (Qmax lr (1 # 1000)) 1000.

(** The body of the outer loop [for (let i = 0; i < M; i++)]: the record
    pushed onto [results] at index [i]. *)
Definition score_at (analysisData : list Judgment) (ps : list Prior)
    (i : nat) : option CalculationResult :=
  currentH ← analysisData !! i;
  P_Hi ← val <$> ps !! i;
  let U_i := U_i currentH in
  let weightDenominator := 1 - P_Hi in
  if Qle_bool weightDenominator (1 # 10000) then
    Some (mkResult (hypothesis_id currentH) P_Hi U_i 0 1)
  else
    U_not_i ← catchall_loop analysisData ps i weightDenominator
                            (seq 0 (length analysisData)) 0;
    let safe_U_not_i := if Qeq_bool U_not_i 0 then 1 # 1000 else U_not_i in
    LR ← div U_i safe_U_not_i;
    Some (mkResult (hypothesis_id currentH) P_Hi U_i U_not_i (clamp LR)).

Definition processBayesianConfirmation (analysisData : list Judgment)
    : option (list CalculationResult) :=
  ps ← priors analysisData;
  mapM (score_at analysisData ps) (seq 0 (length analysisData)).

(** *** Notions used to state the properties

    The array [priors] evaluates to (lemma [priors_Some]): the divisor
    [safeSumQ] is never zero. *)
Definition prior_array (analysisData : list Judgment) : list Prior :=
  map (fun item => mkPrior (hypothesis_id item)
                           (Q_i item / safeSumQ analysisData))
      analysisData.

(** The sum of a list of numbers, to state what the emitted priors add up
    to. *)
Definition Qsum (l : list Q) : Q := fold_right Qplus 0 l.

(** What [score_at] pushes at index [i], as a relation between the judgment
    at that index and the record: either the short-circuit record, or the
    record built from the accumulated catch-all sum [acc]. *)
Definition scored (analysisData : list Judgment) (i : nat)
    (item : Judgment) (r : CalculationResult) : Prop :=
  res_hypothesis_id r = hypothesis_id item ∧
  prior_P_H r = Q_i item / safeSumQ analysisData ∧
  likelihood_P_E_H r = U_i item ∧
  ((1 - prior_P_H r <= 1 # 10000 ∧ catchall_P_E_NotH r = 0 ∧ LR r = 1) ∨
   (¬ 1 - prior_P_H r <= 1 # 10000 ∧
    ∃ acc,
      catchall_loop analysisData (prior_array analysisData) i
                    (1 - prior_P_H r) (seq 0 (length analysisData)) 0 = Some acc ∧
      catchall_P_E_NotH r = acc ∧
      LR r = clamp (U_i item / (if Qeq_bool acc 0 then 1 # 1000 else acc)))).

End Scorer.

(** ** The Cluster Scorer on IEEE binary64 numbers

    The same definitions as in [Scorer], in the same order and from the
    same source lines; only the number type and its operations differ.
    Division is total here (it yields an infinity or NaN where [Scorer.div]
    yields [None]), so [None] only stands for an index out of range. *)

Module F64.

Local Open Scope float_scope.
Set Warnings "-inexact-float".

Record Judgment := mkJudgment {
  hypothesis_id : string;
  Q_i : float;
  U_i : float
}.

Record CalculationResult := mkResult {
  res_hypothesis_id : string;
  prior_P_H : float;
  likelihood_P_E_H : float;
  catchall_P_E_NotH : float;
  LR : float
}.

Record Prior := mkPrior {
  id : string;
  val : float
}.

(** [Math.max(a, b)]: NaN if either argument is NaN, the larger one
    otherwise, [+0] counting as larger than [-0]. *)
Definition Math_max (a b : float) : float :=
  if is_nan a || is_nan b then nan
  else if a <? b then b
  else if b <? a then a
  else match classify a with NZero => b | _ => a end.

(** [Math.min(a, b)]: NaN if either argument is NaN, the smaller one
    otherwise, [-0] counting as smaller than [+0]. *)
Definition Math_min (a b : float) : float :=
  if is_nan a || is_nan b then nan
  else if a <? b then a
  else if b <? a then b
  else match classify a with PZero => b | _ => a end.

Definition sumQ (analysisData : list Judgment) : float :=
  fold_left (fun sum item => sum + Q_i item) analysisData 0.

Definition safeSumQ (analysisData : list Judgment) : float :=
  if sumQ analysisData =? 0 then 1 else sumQ analysisData.

Definition priors (analysisData : list Judgment) : list Prior :=
  map (fun item => mkPrior (hypothesis_id item) (Q_i item / safeSumQ analysisData))
      analysisData.

Fixpoint catchall_loop (analysisData : list Judgment) (ps : list Prior)
    (i : nat) (weightDenominator : float) (js : list nat) (U_not_i : float)
    : option float :=
  match js with
  | [] => Some U_not_i
  | j :: js' =>
      if Nat.eqb i j then
        catchall_loop analysisData ps i weightDenominator js' U_not_i
      else
        P_Hj ← val <$> ps !! j;
        U_j ← U_i <$> analysisData !! j;
        let w_j_i := P_Hj / weightDenominator in
        catchall_loop analysisData ps i weightDenominator js'
                      (U_not_i + w_j_i * U_j)
  end.

Definition clamp (lr : float) : float := Math_min (Math_max lr 0.001) 1000.

Definition score_at (analysisData : list Judgment) (ps : list Prior)
    (i : nat) : option CalculationResult :=
  currentH ← analysisData !! i;
  P_Hi ← val <$> ps !! i;
  let U_i := U_i currentH in
  let weightDenominator := 1 - P_Hi in
  if weightDenominator <=? 0.0001 then
    Some (mkResult (hypothesis_id currentH) P_Hi U_i 0 1)
  else
    U_not_i ← catchall_loop analysisData ps i weightDenominator
                            (seq 0 (length analysisData)) 0;
    let safe_U_not_i := if U_not_i =? 0 then 0.001 else U_not_i in
    let LR := U_i / safe_U_not_i in
    Some (mkResult (hypothesis_id currentH) P_Hi U_i U_not_i (clamp LR)).

Definition processBayesianConfirmation (analysisData : list Judgment)
    : option (list CalculationResult) :=
  mapM (score_at analysisData (priors analysisData))
       (seq 0 (length analysisData)).

(** *** Notions used to state the properties *)

(** A number is finite when it is neither an infinity nor NaN. *)
Definition finite (x : float) : bool := negb (is_nan x || is_infinity x).

Definition all_finite (r : CalculationResult) : bool :=
  finite (prior_P_H r) && finite (likelihood_P_E_H r)
  && finite (catchall_P_E_NotH r) && finite (LR r).

(** Clamping to the closed interval [[lo, hi]], said without [Math.min] and
    [Math.max]: a number below [lo] becomes [lo], a number above [hi]
    becomes [hi], any other number is left as it is. *)
Definition clamp_to (lo hi x : float) : float :=
  if x <? lo then lo else if hi <? x then hi else x.

(** [x] and [y] differ by at most [tol]. *)
Definition within (tol x y : float) : bool := abs (x - y) <=? tol.

(** What [score_at] pushes at index [i], as a relation between the judgment
    at that index and the record: the short-circuit record when the
    rounded denominator [1 - P_Hi] passes the test [<= 0.0001], and
    otherwise the record built from the accumulated catch-all sum [acc]. *)
Definition scored (analysisData : list Judgment) (i : nat)
    (item : Judgment) (r : CalculationResult) : Prop :=
  res_hypothesis_id r = hypothesis_id item ∧
  prior_P_H r = Q_i item / safeSumQ analysisData ∧
  likelihood_P_E_H r = U_i item ∧
  (((1 - prior_P_H r <=? 0.0001) = true ∧
    catchall_P_E_NotH r = 0 ∧ LR r = 1) ∨
   ((1 - prior_P_H r <=? 0.0001) = false ∧
    ∃ acc,
      catchall_loop analysisData (priors analysisData) i
                    (1 - prior_P_H r) (seq 0 (length analysisData)) 0 = Some acc ∧
      catchall_P_E_NotH r = acc ∧
      LR r = Math_min (Math_max (U_i item / (if acc =? 0 then 0.001 else acc))
                                0.001) 1000)).

(** The rational number a finite binary64 value stands for. *)
Definition exact (x : float) : option Q :=
  match FloatOps.Prim2SF x with
  | SpecFloat.S754_zero _ => Some 0%Q
  | SpecFloat.S754_finite s m e =>
      Some ((if s then - inject_Z (Zpos m) else inject_Z (Zpos m)) * Qpower 2 e)%Q
  | _ => None
  end.


End F64.

(** ** Plain objects used as maps

    [cluster.lrs], [cluster.stats] and [scores] are plain JavaScript
    objects keyed by hypothesis id.  A plain object is modelled by the
    finite map of its own properties; reading and writing go through [get]
    and [set], which account for the members every plain object inherits
    from [Object.prototype]. *)

Module JsObject.

(** The property names a plain object inherits from [Object.prototype]
    (ECMAScript, Annex B included). *)
Definition prototype_members : list string :=
  ["constructor"; "hasOwnProperty"; "isPrototypeOf"; "propertyIsEnumerable";
   "toLocaleString"; "toString"; "valueOf"; "__proto__";
   "__defineGetter__"; "__defineSetter__"; "__lookupGetter__";
   "__lookupSetter__"].

Definition inherited (k : string) : bool := bool_decide (k ∈ prototype_members).

(** What reading [o[k]] yields: nothing, an own property, or an inherited
    member (a function, or the prototype itself for ["__proto__"]). *)
Inductive value (N : Type) : Type :=
  | Undefined
  | Number (x : N)
  | Member.

Arguments Undefined {N}.
Arguments Number {N} x.
Arguments Member {N}.

(** [o[k]]: the own property if there is one, else the member inherited
    from [Object.prototype] if [k] names one, else [undefined]. *)
Definition get {N : Type} (o : gmap string N) (k : string) : value N :=
  match o !! k with
  | Some x => Number x
  | None => if inherited k then Member else Undefined
  end.

(** [o[k] = x]: the own property [k] is created or overwritten, except
    that for [k = "__proto__"] on an object without such an own property
    the assignment goes to the inherited setter, which creates no own
    property (it ignores a number and replaces the prototype by an
    object). *)
Definition set {N : Type} (o : gmap string N) (k : string) (x : N)
    : gmap string N :=
  if String.eqb k "__proto__" then
    match o !! k with
    | Some _ => <[k := x]> o
    | None => o
    end
  else <[k := x]> o.

End JsObject.

(** ** The neutral default of the evidence matrix *)

Module Combiner.

Local Open Scope Q_scope.

(** [x || 1] on a number or [undefined]: [undefined] and [0] are falsy. *)
Definition or_1 (x : option Q) : Q :=
  match x with
  | Some v => if Qeq_bool v 0 then 1 else v
  | None => 1
  end.

End Combiner.

(** ** The Cross-Cluster Combiner

    The cumulative scores are computed in two places: [chatWithAnalyst]
    builds the mapping [scores], [radarData] computes one [rawScore] per
    hypothesis.  A cluster is represented by its
    [lrs : Record<string, number>], the only field of an [EvidenceCluster]
    either computation reads; numbers are binary64.
    [Object.entries] visits the keys of [lrs] in insertion order and
    [map_fold] in the map's own order: every key is written once per
    cluster and no key reads another, so the order does not show in the
    result ([combine_cluster_lookup]). *)

Module Combiner64.

Local Open Scope float_scope.

(** A number is truthy unless it is [0], [-0] or NaN. *)
Definition truthy (x : float) : bool := negb ((x =? 0) || is_nan x).

(** The number [v || 1] is in a product: a falsy number and [undefined]
    give [1]; an inherited member is truthy, and converted to a number it
    is NaN. *)
Definition or_1 (v : JsObject.value float) : float :=
  match v with
  | JsObject.Number x => if truthy x then x else 1
  | JsObject.Undefined => 1
  | JsObject.Member => nan
  end.

(** The body of [chatWithAnalyst]'s inner loop over
    [Object.entries(cluster.lrs)]:
    [scores[hId] = (scores[hId] || 1) * val].  Each key of [lrs] is
    visited once. *)
Definition combine_cluster (scores : gmap string float) (lrs : gmap string float)
    : gmap string float :=
  map_fold (fun hId val scores =>
              JsObject.set scores hId (or_1 (JsObject.get scores hId) * val))
           scores lrs.

(** [chatWithAnalyst]: [scores = {}] followed by
    [context.evidence_clusters.forEach(cluster => ...)]. *)
Definition combine (evidence_clusters : list (gmap string float))
    : gmap string float :=
  fold_left combine_cluster evidence_clusters ∅.

(** [radarData], the [rawScore] of the hypothesis with id [h]:
    [let score = 1; clusters.forEach(c => { const lr = c.lrs[h.id] || 1; score *= lr; })]. *)
Definition rawScore (evidence_clusters : list (gmap string float)) (h : string)
    : float :=
  fold_left (fun score lrs => let lr := or_1 (JsObject.get lrs h) in score * lr)
            evidence_clusters 1.

(** The placeholder initialisation of the structuring phase, given the
    [hypothesis_id] of every element of [lrs_array] (no other field of an
    element is read):
    [const clusterLrs = {}; if (cluster.lrs_array) {
      cluster.lrs_array.forEach(lr => clusterLrs[lr.hypothesis_id] = 1.0) }] *)
Definition placeholder_lrs (lrs_array : option (list string)) : gmap string float :=
  match lrs_array with
  | Some arr => fold_left (fun clusterLrs id => JsObject.set clusterLrs id 1) arr ∅
  | None => ∅
  end.

(** *** Notions used to state the properties *)

(** The LR values the clusters hold for hypothesis [h], in cluster order. *)
Definition entries (h : string) (evidence_clusters : list (gmap string float))
    : list float :=
  omap (fun lrs : gmap string float => lrs !! h) evidence_clusters.

(** The product [((1 * v1) * v2) * ...] of a list of LR values, rounded
    after every multiplication. *)
Definition product (vs : list float) : float := fold_left mul vs 1.

(** The values the product takes on the way: [acc * v1], [acc * v1 * v2],
    and so on. *)
Fixpoint running (acc : float) (vs : list float) : list float :=
  match vs with
  | [] => []
  | v :: vs' => acc * v :: running (acc * v) vs'
  end.

(** The score of one hypothesis after one more of its LR values: [s] is
    its own property in [scores], if any. *)
Definition next_score (s : option float) (val : float) : option float :=
  Some (or_1 (match s with
              | Some x => JsObject.Number x
              | None => JsObject.Undefined
              end) * val).

End Combiner64.

(** ** The scoring phase of [analyzeTopic]

    The deterministic part of [analyzeTopic] after the structuring phase:
    the update of every cluster from the Scorer's results.  The judgments
    and the structured clusters come from the text-generation service and
    are inputs here.  Numbers are exact rationals, as in [Scorer]. *)

Module Report.

Import Scorer.
Local Open Scope Q_scope.

(** [interface BayesianStats] *)
Record BayesianStats := mkStats {
  h_id : string;
  p_h : Q;
  p_e_h : Q;
  p_e_not_h : Q;
  lr : Q
}.

(** [interface Evidence]; its fields [id], [description] and [lrs] carry
    the prefix [item_], the names being taken by [EvidenceCluster]. *)
Record Evidence := mkEvidence {
  item_id : string;
  item_description : string;
  source : string;
  url : option string;
  item_lrs : gmap string Q;
  explanation : string
}.

(** [interface EvidenceCluster]; [stats] is optional. *)
Record EvidenceCluster := mkCluster {
  cluster_id : string;
  name : string;
  description : string;
  lrs : gmap string Q;
  stats : option (gmap string BayesianStats);
  items : list Evidence
}.

(** One element of [scoringData.clusters]: [{ cluster_id, analysis }];
    [analysis] may be missing from the parsed JSON. *)
Record ClusterAnalysis := mkAnalysis {
  analysis_cluster_id : string;
  analysis : option (list Judgment)
}.

(** The body of [mathResults.forEach(res => ...)]:
    [cluster.lrs[res.hypothesis_id] = res.LR] and, [cluster.stats] being
    set, [cluster.stats[res.hypothesis_id] = { h_id, p_h, p_e_h, p_e_not_h, lr }].
    Both maps hold the own properties of their object. *)
Definition record_result (cluster : EvidenceCluster) (res : CalculationResult)
    : EvidenceCluster :=
  mkCluster (cluster_id cluster) (name cluster) (description cluster)
    (JsObject.set (lrs cluster) (res_hypothesis_id res) (LR res))
    (match stats cluster with
     | Some st =>
         Some (JsObject.set st (res_hypothesis_id res)
                 (mkStats (res_hypothesis_id res) (prior_P_H res)
                          (likelihood_P_E_H res) (catchall_P_E_NotH res)
                          (LR res)))
     | None => None
     end)
    (items cluster).

(** [cluster.items.forEach(item => { item.lrs = { ...cluster.lrs }; })] *)
Definition inherit_lrs (cluster : EvidenceCluster) : EvidenceCluster :=
  mkCluster (cluster_id cluster) (name cluster) (description cluster)
    (lrs cluster) (stats cluster)
    (map (fun item =>
            mkEvidence (item_id item) (item_description item) (source item)
                       (url item) (lrs cluster) (explanation item))
         (items cluster)).

(** [cluster.stats = {}] *)
Definition init_stats (cluster : EvidenceCluster) : EvidenceCluster :=
  mkCluster (cluster_id cluster) (name cluster) (description cluster)
    (lrs cluster) (Some ∅) (items cluster).

(** The body of [initialReport.evidence_clusters.forEach(cluster => ...)]:
    the first element of [scoringData.clusters] with the cluster's id is
    looked up; a cluster without one, or whose element has no [analysis],
    is left as it is. *)
Definition score_cluster (clusters : list ClusterAnalysis)
    (cluster : EvidenceCluster) : option EvidenceCluster :=
  match List.find (fun c => String.eqb (analysis_cluster_id c) (cluster_id cluster))
                  clusters with
  | Some clusterAnalysis =>
      match analysis clusterAnalysis with
      | Some a =>
          mathResults ← processBayesianConfirmation a;
          Some (inherit_lrs (fold_left record_result mathResults
                                       (init_stats cluster)))
      | None => Some cluster
      end
  | None => Some cluster
  end.



(** The stats table of a cluster and its LR row are in step: the table is
    set, every entry is filed under its own [h_id], and its [lr] is the
    cluster's LR for that hypothesis. *)
Definition stats_agree (cluster : EvidenceCluster) : Prop :=
  ∃ st, stats cluster = Some st ∧
        ∀ h s, st !! h = Some s → h_id s = h ∧ lrs cluster !! h = Some (lr s).



End Report.

(** ** [generateWithRetry]

    [callFn] is a call to the remote service; the model takes its outcomes
    from a script: [callFn k] is the outcome of the call made after [k]
    earlier ones, [inr v] for a resolved promise and [inl e] for a rejected
    one.  The function returns the outcome of the whole retry loop together
    with the delays it awaited, in order.  [retries] is a natural number:
    every caller uses the default [3]. *)

Module Retry.

(** The fields of a thrown value the function reads: [e.status] (a number,
    when present) and [e.message] (a string, when present). *)
Record ApiError := mkError {
  status : option Z;
  message : option string
}.

(** [s.includes(pat)] *)
Definition includes (s pat : string) : bool :=
  match String.index 0 pat s with Some _ => true | None => false end.

(** [e.status === 429 || e.status === 503 ||
     (e.message && (e.message.includes('429') || e.message.includes('503')
                    || e.message.includes('Resource has been exhausted')))];
    the empty message is falsy. *)
Definition isRetryable (e : ApiError) : bool :=
  match status e with Some st => Z.eqb st 429 | None => false end
  || match status e with Some st => Z.eqb st 503 | None => false end
  || match message e with
     | Some m =>
         negb (String.eqb m "")
         && (includes m "429" || includes m "503"
             || includes m "Resource has been exhausted")
     | None => false
     end.

(** [generateWithRetry(callFn, retries, delay)], started after [k] calls.
    [retries > 0 && isRetryable] is the match on [retries] followed by the
    test of [isRetryable]. *)
Fixpoint generateWithRetry {A : Type} (callFn : nat → ApiError + A) (k : nat)
    (retries : nat) (delay : Z) : (ApiError + A) * list Z :=
  match callFn k with
  | inr v => (inr v, [])
  | inl e =>
      match retries with
      | S retries' =>
          if isRetryable e then
            let '(r, awaited) :=
              generateWithRetry callFn (S k) retries' (delay * 2) in
            (r, delay :: awaited)
          else (inl e, [])
      | O => (inl e, [])
      end
  end.

(** The delays awaited before the call number [n] of a loop started with
    [delay]: [delay], [2 * delay], [4 * delay], ... *)
Definition backoff (delay : Z) (n : nat) : list Z :=
  map (fun j => (delay * 2 ^ Z.of_nat j)%Z) (seq 0 n).

End Retry.

(** ** The evidence matrix: LR labels and expanded clusters *)

Module Matrix.

Local Open Scope Q_scope.

(** [getLRColor] *)
Definition getLRColor (lr : Q) : string :=
  if Qle_bool 10 lr then "bg-emerald-500 text-emerald-950 font-bold"
  else if Qle_bool 2 lr then "bg-emerald-500/50 text-emerald-100"
  else if Qle_bool lr (1 # 10) then "bg-red-500 text-red-950 font-bold"
  else if Qle_bool lr (1 # 2) then "bg-red-500/50 text-red-100"
  else "bg-slate-700 text-slate-400".

(** [getLRLabel] *)
Definition getLRLabel (lr : Q) : string :=
  if Qle_bool 10 lr then "++"
  else if Qle_bool 2 lr then "+"
  else if Qle_bool lr (1 # 10) then "--"
  else if Qle_bool lr (1 # 2) then "-"
  else "0".

(** The cell of hypothesis [h] in a cluster's row:
    [const lr = cluster.lrs[h.id] || 1; ... getLRLabel(lr)]. *)
Definition cell_label (lrs : gmap string Q) (h : string) : string :=
  let lr := Combiner.or_1 (lrs !! h) in getLRLabel lr.

(** The tooltip of [LikelihoodChart]:
    [d.lr > 1 ? "Supports" : d.lr < 1 ? "Refutes" : "Neutral"]. *)
Definition supportText (lr : Q) : string :=
  if negb (Qle_bool lr 1) then "Supports"
  else if negb (Qle_bool 1 lr) then "Refutes"
  else "Neutral".

(** The position of a label on the scale from strong refutation to strong
    support. *)
Definition label_rank (l : string) : Z :=
  if String.eqb l "--" then -2
  else if String.eqb l "-" then -1
  else if String.eqb l "+" then 1
  else if String.eqb l "++" then 2
  else 0.

(** [toggleCluster]: [newSet = new Set(expandedClusters);
     if (newSet.has(id)) newSet.delete(id); else newSet.add(id)]. *)
Definition toggleCluster (expandedClusters : gset string) (id : string)
    : gset string :=
  if decide (id ∈ expandedClusters) then expandedClusters ∖ {[ id ]}
  else expandedClusters ∪ {[ id ]}.

End Matrix.

(** ** The history of analyses kept by [App] *)

Module History.

(** [setHistory(prev => [result, ...prev].slice(0, 10))] *)
Definition push_history {R : Type} (prev : list R) (result : R) : list R :=
  take 10 (result :: prev).

End History.

(** ** [migrateHistory]

    A stored history item is parsed JSON of any shape.  The model keeps the
    three fields the function reads, each possibly missing, and gathers all
    other fields, which the spread [...item] copies, in [other]. *)

Module Migration.

Import Report.
Local Open Scope Q_scope.

(** [interface RubricDimension] *)
Record RubricDimension := mkDimension {
  score : Q;
  justification : string;
  strengths : list string;
  improvements : list string
}.

(** [interface RubricAssessment] *)
Record RubricAssessment := mkRubric {
  evidence_handling : RubricDimension;
  argument_structure : RubricDimension;
  methodological_transparency : RubricDimension;
  reflexivity_revision : RubricDimension;
  total_score : Q;
  overall_assessment : string
}.

Record StoredReport (O : Type) := mkStored {
  evidence_clusters : option (list EvidenceCluster);
  evidence_matrix : option (list Evidence);
  rubric_assessment : option RubricAssessment;
  other : O
}.

Arguments mkStored {O}.
Arguments evidence_clusters {O}.
Arguments evidence_matrix {O}.
Arguments rubric_assessment {O}.
Arguments other {O}.

Definition dummyDimension : RubricDimension :=
  mkDimension 0 "Legacy report - Rubric not available." [] [].

(** The body of [data.map(item => ...)]. *)
Definition migrate {O : Type} (item : StoredReport O) : StoredReport O :=
  let clusters :=
    match evidence_clusters item with
    | Some clusters => clusters
    | None =>
        let legacyItems := default [] (evidence_matrix item) in
        [mkCluster "legacy_cluster" "Legacy Evidence Set"
           "Data imported from previous version without thematic clustering."
           ∅ None legacyItems]
    end in
  let rubric :=
    match rubric_assessment item with
    | Some rubric => rubric
    | None =>
        mkRubric dummyDimension dummyDimension dummyDimension dummyDimension 0
          "This analysis was generated before the Intellectual Honesty Rubric feature was added."
    end in
  mkStored (Some clusters) (evidence_matrix item) (Some rubric) (other item).

Definition migrateHistory {O : Type} (data : list (StoredReport O))
    : list (StoredReport O) :=
  map migrate data.

End Migration.

(** ** The page cursor of [handleGeneratePDF]

    The state is the cursor [currentY] and the number of pages of the
    document; [pageHeight] comes from the PDF library and [margin] is 20.
    [doc.addPage()] adds one page. *)

Module Pdf.

Local Open Scope Q_scope.

Definition margin : Q := 20.

Record Cursor := mkCursor {
  currentY : Q;
  pages : nat
}.

(** [addVerticalSpace(mm)]: [currentY += mm;
    if (currentY > pageHeight - margin) { doc.addPage(); currentY = margin; }] *)
Definition addVerticalSpace (pageHeight : Q) (mm : Q) (c : Cursor) : Cursor :=
  let y := currentY c + mm in
  if negb (Qle_bool y (pageHeight - margin)) then mkCursor margin (S (pages c))
  else mkCursor y (pages c).

(** [ensureSpace(mm)]: [if (currentY + mm > pageHeight - margin)
    { doc.addPage(); currentY = margin; }] *)
Definition ensureSpace (pageHeight : Q) (mm : Q) (c : Cursor) : Cursor :=
  if negb (Qle_bool (currentY c + mm) (pageHeight - margin))
  then mkCursor margin (S (pages c))
  else c.

(** The cursor part of [addText] for a text that [doc.splitTextToSize]
    breaks into [lines] lines: the position and page the block is drawn at,
    and the cursor afterwards. *)
Definition addText (pageHeight : Q) (lines : nat) (fontSize : Q) (c : Cursor)
    : Cursor * Cursor :=
  let lineHeight := fontSize * (3527 # 10000) * (12 # 10) in
  let blockHeight := inject_Z (Z.of_nat lines) * lineHeight in
  let drawn :=
    if negb (Qle_bool (currentY c + blockHeight) (pageHeight - margin))
    then mkCursor margin (S (pages c))
    else c in
  (drawn, mkCursor (currentY drawn + (blockHeight + 2)) (pages drawn)).

End Pdf.


(** * Properties of the Cluster Scorer (exact arithmetic) *)

Lemma Forall2_impl_elem {A B} (P R : A → B → Prop) (l : list A) (k : list B) :
  Forall2 P l k → (∀ x y, x ∈ l → P x y → R x y) → Forall2 R l k.
Proof.
  induction 1 as [|x y l k Hxy _ IH]; intros Himp; constructor.
  - apply Himp; [left|exact Hxy].
  - apply IH. intros x' y' Hin. apply Himp. by right.
Qed.

Section ScorerFacts.

Import Scorer.
Local Open Scope Q_scope.

Implicit Types (analysisData : list Judgment) (ps : list Prior)
               (i j : nat) (js : list nat).

(** ** Division and the guards *)

Lemma div_nonzero (a b : Q) : ¬ b == 0 → div a b = Some (a / b).
Proof.
  intros Hb. unfold div.
  destruct (Qeq_bool b 0) eqn:E; [|reflexivity].
  apply Qeq_bool_iff in E. contradiction.
Qed.

Lemma div_inv (a b q : Q) : div a b = Some q → ¬ b == 0 ∧ q = a / b.
Proof.
  unfold div. destruct (Qeq_bool b 0) eqn:E; [discriminate|].
  intros [= <-]. split; [|reflexivity]. by apply Qeq_bool_neq.
Qed.

Lemma safeSumQ_nonzero analysisData : ¬ safeSumQ analysisData == 0.
Proof.
  unfold safeSumQ. destruct (Qeq_bool (sumQ analysisData) 0) eqn:E.
  - intros H. discriminate H.
  - by apply Qeq_bool_neq.
Qed.

Lemma clamp_range (lr : Q) : 1 # 1000 <= clamp lr ∧ clamp lr <= 1000.
Proof.
  unfold clamp. split.
  - apply Q.min_glb; [apply Q.le_max_r | discriminate].
  - apply Q.le_min_r.
Qed.

Lemma clamp_id (lr : Q) : 1 # 1000 <= lr → lr <= 1000 → clamp lr == lr.
Proof.
  intros H1 H2. unfold clamp.
  rewrite (Q.max_l lr) by exact H1. by rewrite Q.min_l.
Qed.

(** ** The priors array *)

Lemma priors_Some analysisData :
  priors analysisData = Some (prior_array analysisData).
Proof.
  unfold priors, prior_array. generalize (safeSumQ_nonzero analysisData).
  generalize (safeSumQ analysisData) as s. intros s Hs.
  induction analysisData as [|item l IH]; [reflexivity|].
  cbn. rewrite (div_nonzero _ _ Hs). cbn.
  cbn in IH. rewrite IH. reflexivity.
Qed.

Lemma prior_array_length analysisData :
  length (prior_array analysisData) = length analysisData.
Proof. unfold prior_array. apply length_map. Qed.

Lemma prior_array_lookup analysisData i item :
  analysisData !! i = Some item →
  val <$> prior_array analysisData !! i
  = Some (Q_i item / safeSumQ analysisData).
Proof.
  intros H. unfold prior_array. rewrite list_lookup_fmap, H. reflexivity.
Qed.

(** ** The inner loop never fails on a non-zero weight denominator *)

Lemma catchall_loop_total analysisData ps i (wd : Q) js (acc : Q) :
  ¬ wd == 0 →
  length ps = length analysisData →
  Forall (fun j => (j < length analysisData)%nat) js →
  is_Some (catchall_loop analysisData ps i wd js acc).
Proof.
  intros Hwd Hlen Hjs. revert acc.
  induction Hjs as [|j js Hj _ IH]; intros acc; cbn; [by eexists|].
  destruct (Nat.eqb i j); [apply IH|].
  destruct (lookup_lt_is_Some_2 ps j) as [p Hp]; [by rewrite Hlen|].
  destruct (lookup_lt_is_Some_2 analysisData j) as [d Hd]; [done|].
  rewrite Hp, Hd. cbn. rewrite (div_nonzero _ _ Hwd). cbn. apply IH.
Qed.

Lemma seq_bounded (n : nat) : Forall (fun j => (j < n)%nat) (seq 0 n).
Proof.
  apply Forall_forall. intros j Hj. apply elem_of_seq in Hj. lia.
Qed.

(** ** One iteration of the outer loop *)

Lemma score_at_inv analysisData i r :
  score_at analysisData (prior_array analysisData) i = Some r →
  ∃ item, analysisData !! i = Some item ∧ scored analysisData i item r.
Proof.
  unfold score_at. intros H.
  destruct (analysisData !! i) as [item|] eqn:Hi; [|discriminate].
  exists item. split; [reflexivity|]. cbn in H.
  rewrite (prior_array_lookup _ _ _ Hi) in H. cbn in H.
  destruct (Qle_bool _ _) eqn:Hle.
  - injection H as <-. unfold scored. cbn.
    repeat split. left. apply Qle_bool_iff in Hle. by repeat split.
  - assert (Hnle : ¬ 1 - Q_i item / safeSumQ analysisData <= 1 # 10000).
    { intros Hc. apply Qle_bool_iff in Hc. congruence. }
    destruct (catchall_loop _ _ _ _ _ _) as [acc|] eqn:Hacc; [|discriminate].
    cbn in H.
    destruct (div _ _) as [q|] eqn:Hdiv; [|discriminate].
    cbn in H. injection H as <-. apply div_inv in Hdiv as [_ ->].
    unfold scored. cbn. repeat split. right. split; [exact Hnle|].
    exists acc. by repeat split.
Qed.

Lemma score_at_total analysisData i :
  (i < length analysisData)%nat →
  is_Some (score_at analysisData (prior_array analysisData) i).
Proof.
  intros Hi. unfold score_at.
  destruct (lookup_lt_is_Some_2 analysisData i Hi) as [item Hitem].
  rewrite Hitem. cbn. rewrite (prior_array_lookup _ _ _ Hitem). cbn.
  destruct (Qle_bool _ _) eqn:Hle; [by eexists|].
  assert (Hwd : ¬ 1 - Q_i item / safeSumQ analysisData == 0).
  { intros Hc. assert (Qle_bool (1 - Q_i item / safeSumQ analysisData) (1 # 10000) = true);
      [|congruence].
    apply Qle_bool_iff. rewrite Hc. discriminate. }
  destruct (catchall_loop_total analysisData (prior_array analysisData) i _
              (seq 0 (length analysisData)) 0 Hwd
              (prior_array_length _) (seq_bounded _)) as [acc Hacc].
  rewrite Hacc. cbn.
  rewrite div_nonzero; [by eexists|].
  destruct (Qeq_bool acc 0) eqn:E; [discriminate|by apply Qeq_bool_neq].
Qed.

(** ** The whole function *)

Lemma processBayesianConfirmation_total analysisData :
  is_Some (processBayesianConfirmation analysisData).
Proof.
  unfold processBayesianConfirmation. rewrite priors_Some. cbn.
  apply mapM_is_Some, Forall_forall. intros i Hi. cbn.
  apply score_at_total. apply elem_of_seq in Hi. lia.
Qed.

(** The function returns one record per judgment, each related to its
    judgment by [scored]. *)
Lemma processBayesianConfirmation_scored analysisData :
  ∃ rs,
    processBayesianConfirmation analysisData = Some rs ∧
    length rs = length analysisData ∧
    ∀ i r, rs !! i = Some r →
           ∃ item, analysisData !! i = Some item ∧ scored analysisData i item r.
Proof.
  destruct (processBayesianConfirmation_total analysisData) as [rs Hrs].
  exists rs. split; [exact Hrs|].
  unfold processBayesianConfirmation in Hrs. rewrite priors_Some in Hrs.
  cbn in Hrs. apply mapM_Some_1 in Hrs. split.
  - apply Forall2_length in Hrs. rewrite length_seq in Hrs. done.
  - intros i r Hr.
    destruct (Forall2_lookup_r _ _ _ _ _ Hrs Hr) as (k & Hk & Hsc).
    apply lookup_seq in Hk as [-> _]. cbn in Hsc.
    by apply score_at_inv.
Qed.

Lemma processBayesianConfirmation_lookup analysisData rs i item :
  processBayesianConfirmation analysisData = Some rs →
  length rs = length analysisData →
  (∀ i r, rs !! i = Some r →
          ∃ item, analysisData !! i = Some item ∧ scored analysisData i item r) →
  analysisData !! i = Some item →
  ∃ r, rs !! i = Some r ∧ scored analysisData i item r.
Proof.
  intros _ Hlen Hsc Hi.
  destruct (lookup_lt_is_Some_2 rs i) as [r Hr].
  { rewrite Hlen. by eapply lookup_lt_Some. }
  exists r. split; [exact Hr|].
  destruct (Hsc i r Hr) as (item' & Hi' & Hs). congruence.
Qed.

(** ** Sums of the [Q_i] *)

Lemma fold_sumQ (l : list Judgment) (a : Q) :
  fold_left (fun sum item => sum + Q_i item) l a == a + Qsum (map Q_i l).
Proof.
  unfold Qsum. revert a.
  induction l as [|x l IH]; intros a; cbn [fold_left map fold_right].
  - ring.
  - rewrite IH. ring.
Qed.

Lemma sumQ_Qsum analysisData : sumQ analysisData == Qsum (map Q_i analysisData).
Proof. unfold sumQ. rewrite fold_sumQ. ring. Qed.



Lemma Qsum_priors (l : list Judgment) (rs : list CalculationResult) (s : Q) :
  Forall2 (fun item r => prior_P_H r = Q_i item / s) l rs →
  Qsum (map prior_P_H rs) == Qsum (map Q_i l) / s.
Proof.
  unfold Qsum. induction 1 as [|item r l rs Hr _ IH]; cbn [map fold_right].
  - unfold Qdiv. ring.
  - rewrite IH, Hr. unfold Qdiv. ring.
Qed.

(** ** Consequences of [scored] *)

Lemma scored_LR_range analysisData i item r :
  scored analysisData i item r → 1 # 1000 <= LR r ∧ LR r <= 1000.
Proof.
  intros (_ & _ & _ & [(_ & _ & ->)|(_ & acc & _ & _ & ->)]).
  - split; discriminate.
  - apply clamp_range.
Qed.

Lemma processBayesianConfirmation_priors analysisData :
  ∃ rs,
    processBayesianConfirmation analysisData = Some rs ∧
    Forall2 (fun item r => prior_P_H r = Q_i item / safeSumQ analysisData)
            analysisData rs.
Proof.
  destruct (processBayesianConfirmation_scored analysisData)
    as (rs & Hrs & Hlen & Hsc).
  exists rs. split; [exact Hrs|].
  apply Forall2_same_length_lookup_2; [done|].
  intros i item r Hi Hr.
  destruct (Hsc i r Hr) as (item' & Hi' & _ & Hp & _). congruence.
Qed.

Lemma short_circuit_record analysisData i item :
  analysisData !! i = Some item →
  1 - Q_i item / safeSumQ analysisData <= 1 # 10000 →
  ∃ rs,
    processBayesianConfirmation analysisData = Some rs ∧
    length rs = length analysisData ∧
    rs !! i = Some (mkResult (hypothesis_id item)
                             (Q_i item / safeSumQ analysisData)
                             (U_i item) 0 1).
Proof.
  intros Hi Hle.
  destruct (processBayesianConfirmation_scored analysisData)
    as (rs & Hrs & Hlen & Hsc).
  exists rs. split; [exact Hrs|]. split; [exact Hlen|].
  destruct (processBayesianConfirmation_lookup _ _ _ _ Hrs Hlen Hsc Hi)
    as (r & Hr & Hid & Hp & Hu & Hcases).
  rewrite Hr. f_equal. rewrite Hp in Hcases.
  destruct Hcases as [(_ & Hc & Hl)|(Hn & _)]; [|contradiction].
  destruct r; cbn in *. congruence.
Qed.

(** ** Judgment lists whose entries are all alike *)

Lemma inject_Z_S (n : nat) : inject_Z (Z.of_nat (S n)) == 1 + inject_Z (Z.of_nat n).
Proof. rewrite Nat2Z.inj_succ, <- Z.add_1_l, inject_Z_plus. reflexivity. Qed.

Lemma Qsum_const (l : list Q) (q : Q) :
  Forall (fun x => x == q) l →
  Qsum l == inject_Z (Z.of_nat (length l)) * q.
Proof.
  unfold Qsum. induction 1 as [|x l Hx _ IH]; cbn [fold_right length].
  - ring.
  - rewrite inject_Z_S, IH, Hx. ring.
Qed.

(** The number of indices [j] of [seq a n] the inner loop does not skip. *)
Lemma others_count (i a n : nat) :
  (a <= i < a + n)%nat →
  length (List.filter (fun j => negb (Nat.eqb i j)) (seq a n)) = (n - 1)%nat.
Proof.
  revert a. induction n as [|n IH]; intros a Hi; [lia|].
  cbn [seq List.filter]. destruct (Nat.eqb_spec i a) as [->|Hne]; cbn [negb].
  - clear IH Hi. replace (S n - 1)%nat with n by lia.
    assert (Hall : ∀ b m, (a < b)%nat →
              List.filter (fun j => negb (Nat.eqb a j)) (seq b m) = seq b m).
    { intros b m. revert b. induction m as [|m IHm]; intros b Hb; [reflexivity|].
      cbn [seq List.filter]. destruct (Nat.eqb_spec a b); [lia|].
      cbn [negb]. f_equal. apply IHm. lia. }
    rewrite Hall by lia. apply length_seq.
  - cbn [length]. rewrite IH by lia. lia.
Qed.

(** With every prior equal to [p] and every likelihood equal to [u], the
    inner loop adds [p / wd * u] once per index it does not skip. *)
Lemma catchall_loop_const analysisData ps i (wd p u : Q) js (a v : Q) :
  (∀ j pj, ps !! j = Some pj → val pj == p) →
  (∀ j item, analysisData !! j = Some item → U_i item == u) →
  catchall_loop analysisData ps i wd js a = Some v →
  v == a + inject_Z (Z.of_nat
                       (length (List.filter (fun j => negb (Nat.eqb i j)) js)))
           * (p / wd * u).
Proof.
  intros Hp Hu. revert a.
  induction js as [|j js IH]; intros a; cbn [catchall_loop List.filter].
  - intros [= ->]. cbn [length]. ring.
  - destruct (Nat.eqb i j); cbn [negb]; [apply IH|].
    destruct (ps !! j) as [pj|] eqn:Hpj; [|discriminate].
    destruct (analysisData !! j) as [item|] eqn:Hj; [|discriminate].
    cbn. destruct (div (val pj) wd) as [w|] eqn:Hw; [|discriminate].
    cbn. intros Hv. apply IH in Hv. apply div_inv in Hw as [_ ->].
    rewrite Hv. cbn [length]. rewrite inject_Z_S.
    rewrite (Hp _ _ Hpj), (Hu _ _ Hj). ring.
Qed.

(** ** Exact-arithmetic companions

    Two facts that hold of the Scorer in exact arithmetic; on binary64
    numbers they hold only up to rounding. *)

(** When the sum of the [Q] is not zero the priors add up to 1. *)
Lemma priors_sum_exact analysisData :
  ¬ sumQ analysisData == 0 →
  ∃ rs,
    processBayesianConfirmation analysisData = Some rs ∧
    Qsum (map prior_P_H rs) == 1.
Proof.
  intros Hnz.
  destruct (processBayesianConfirmation_priors analysisData) as (rs & Hrs & Hp).
  exists rs. split; [exact Hrs|].
  assert (Hsafe : safeSumQ analysisData = sumQ analysisData).
  { unfold safeSumQ. destruct (Qeq_bool _ _) eqn:E; [|reflexivity].
    apply Qeq_bool_iff in E. contradiction. }
  rewrite Hsafe in Hp.
  rewrite (Qsum_priors _ _ _ Hp), <- (sumQ_Qsum analysisData). field. exact Hnz.
Qed.

(** When all [Q_i] equal one positive number and all [U_i] equal one
    positive number, every LR is 1. *)
Lemma symmetric_judgments_exact analysisData (q u : Q) :
  analysisData ≠ [] →
  0 < q → 0 < u →
  Forall (fun item => Q_i item == q ∧ U_i item == u) analysisData →
  ∃ rs,
    processBayesianConfirmation analysisData = Some rs ∧
    length rs = length analysisData ∧
    Forall (fun r => LR r == 1) rs.
Proof.
  intros Hne Hq Hu Hall.
  set (n := length analysisData).
  set (N := inject_Z (Z.of_nat n)).
  assert (Hn1 : (1 <= n)%nat).
  { subst n. destruct analysisData; [done|cbn; lia]. }
  assert (HN1 : 1 <= N).
  { subst N. change 1 with (inject_Z 1). rewrite <- Zle_Qle. lia. }
  assert (Hsum : sumQ analysisData == N * q).
  { rewrite sumQ_Qsum, (Qsum_const _ q).
    - rewrite length_map. reflexivity.
    - apply Forall_fmap. eapply Forall_impl; [exact Hall|]. by intros ? [? _]. }
  assert (Hpos : 0 < sumQ analysisData).
  { rewrite Hsum. apply Qmult_lt_0_compat; lra. }
  assert (Hsafe : safeSumQ analysisData = sumQ analysisData).
  { unfold safeSumQ. destruct (Qeq_bool _ _) eqn:E; [|reflexivity].
    apply Qeq_bool_iff in E. lra. }
  assert (HQ : ∀ j item, analysisData !! j = Some item → Q_i item == q).
  { intros j item Hj. by destruct (Forall_lookup_1 _ _ _ _ Hall Hj). }
  assert (HU : ∀ j item, analysisData !! j = Some item → U_i item == u).
  { intros j item Hj. by destruct (Forall_lookup_1 _ _ _ _ Hall Hj). }
  assert (Hprior : ∀ j item, analysisData !! j = Some item →
                             Q_i item / safeSumQ analysisData == 1 / N).
  { intros j item Hj. rewrite Hsafe, Hsum, (HQ _ _ Hj). field. lra. }
  destruct (processBayesianConfirmation_scored analysisData)
    as (rs & Hrs & Hlen & Hsc).
  exists rs. repeat split; [exact Hrs|exact Hlen|].
  apply Forall_lookup. intros i r Hr.
  destruct (Hsc i r Hr) as (item & Hi & _ & Hp & _ & Hcases).
  assert (HP : prior_P_H r == 1 / N) by (rewrite Hp; eauto).
  destruct Hcases as [(_ & _ & ->)|(Hn & acc & Hloop & _ & ->)]; [reflexivity|].
  assert (HNne : ¬ N == 1).
  { intros HN. apply Hn. rewrite HP, HN. discriminate. }
  apply (catchall_loop_const _ _ _ _ (1 / N) u) in Hloop; [|..|exact HU].
  2:{ intros j pj Hj. unfold prior_array in Hj.
      apply list_lookup_fmap_Some in Hj as (item' & -> & Hj). cbn. eauto. }
  rewrite others_count in Hloop.
  2:{ apply lookup_lt_Some in Hi. fold n. lia. }
  assert (HNm : inject_Z (Z.of_nat (n - 1)) == N - 1).
  { subst N. replace n with (S (n - 1)) at 2 by lia. rewrite inject_Z_S. ring. }
  fold n in Hloop. rewrite HNm, HP in Hloop.
  assert (Hacc : acc == u).
  { rewrite Hloop. field. split; lra. }
  assert (E : Qeq_bool acc 0 = false).
  { destruct (Qeq_bool acc 0) eqn:E; [|reflexivity].
    apply Qeq_bool_iff in E. lra. }
  rewrite E.
  assert (Hx : U_i item / acc == 1).
  { rewrite (HU _ _ Hi), Hacc. field. lra. }
  rewrite clamp_id; [exact Hx|rewrite Hx; discriminate..].
Qed.

(** * The claims about the Cluster Scorer *)



(** C6 fails as stated when the single [Q] is zero: the zero-sum fallback
    gives prior 0, the loop is not short-circuited, and LR is the clamp of
    [U / 0.001]. *)
Lemma C6_counterexample :
  (0 <= 0 ∧ 0 <= 1) ∧
  ∃ r,
    processBayesianConfirmation [mkJudgment "H1" 0 1] = Some [r] ∧
    catchall_P_E_NotH r == 0 ∧ LR r == 1000 ∧ ¬ LR r == 1.
Proof.
  split; [split; discriminate|].
  eexists. split; [vm_compute; reflexivity|].
  cbn. repeat split. discriminate.
Qed.

(** C6 (amended). For every single-judgment input with [Q > 0] and
    [U >= 0], the Scorer's output for that hypothesis has LR equal to 1 and
    catchall equal to 0. *)
Theorem C6_single_hypothesis (h : string) (q u : Q) :
  0 < q → 0 <= u →
  ∃ r,
    processBayesianConfirmation [mkJudgment h q u] = Some [r] ∧
    LR r = 1 ∧ catchall_P_E_NotH r = 0.
Proof.
  intros Hq _.
  assert (Hsafe : safeSumQ [mkJudgment h q u] = 0 + q).
  { unfold safeSumQ, sumQ. cbn [fold_left Q_i].
    destruct (Qeq_bool (0 + q) 0) eqn:E; [|reflexivity].
    apply Qeq_bool_iff in E. lra. }
  destruct (short_circuit_record [mkJudgment h q u] 0 (mkJudgment h q u))
    as (rs & Hrs & Hlen & Hr).
  - reflexivity.
  - rewrite Hsafe. cbn [Q_i].
    assert (q / (0 + q) == 1) as -> by (field; lra). discriminate.
  - destruct rs as [|r [|r' rs]]; try discriminate.
    exists r. split; [exact Hrs|]. cbn in Hr. injection Hr as ->. by split.
Qed.

Lemma C6_witness :
  ∃ r,
    processBayesianConfirmation [mkJudgment "H1" (5 # 2) 4] = Some [r] ∧
    LR r = 1 ∧ catchall_P_E_NotH r = 0.
Proof.
  apply (C6_single_hypothesis "H1" (5 # 2) 4).
  - reflexivity.
  - discriminate.
Defined.

End ScorerFacts.

(** * Binary64 arithmetic

    Facts about the IEEE operations, derived from the specification of the
    primitive floats ([FloatAxioms]) and the executable model of the
    operations ([SpecFloat]). *)

Section FloatFacts.

Import SpecFloat FloatOps FloatAxioms.
Local Open Scope float_scope.
Set Warnings "-inexact-float".

Lemma SFcompare_refl (x : spec_float) :
  x <> S754_nan -> SFcompare x x = Some Eq.
Proof.
  destruct x as [s|s| |s m e]; try congruence; intros _; cbn.
  - reflexivity.
  - destruct s; reflexivity.
  - rewrite Z.compare_refl, Pos.compare_cont_refl. destruct s; reflexivity.
Qed.

Lemma SFcompare_antisym (x y : spec_float) :
  SFcompare y x = option_map CompOpp (SFcompare x y).
Proof.
  destruct x as [sx|sx| |sx mx ex], y as [sy|sy| |sy my ey]; cbn;
    try reflexivity;
    try (destruct sx; reflexivity); try (destruct sy; reflexivity);
    try (destruct sx, sy; reflexivity).
  f_equal.
  assert (Hm : Pos.compare_cont Eq my mx = CompOpp (Pos.compare_cont Eq mx my))
    by (rewrite Pos.compare_cont_antisym; reflexivity).
  rewrite (Z.compare_antisym ex ey), Hm.
  destruct sx, sy, (ex ?= ey)%Z, (Pos.compare_cont Eq mx my); reflexivity.
Qed.

Lemma float_is_nan_spec (x : float) :
  is_nan x = match Prim2SF x with S754_nan => true | _ => false end.
Proof.
  unfold is_nan. rewrite FloatAxioms.eqb_spec. unfold SFeqb.
  destruct (Prim2SF x) eqn:E; try (rewrite SFcompare_refl by congruence; reflexivity).
  reflexivity.
Qed.

Lemma float_is_infinity_spec (x : float) :
  is_infinity x = match Prim2SF x with S754_infinity _ => true | _ => false end.
Proof.
  unfold is_infinity. rewrite FloatAxioms.eqb_spec, abs_spec.
  change (Prim2SF infinity) with (S754_infinity false).
  destruct (Prim2SF x) as [s|s| |s m e]; reflexivity.
Qed.

Lemma float_eqb_zero_spec (x : float) :
  (x =? 0) = match Prim2SF x with S754_zero _ => true | _ => false end.
Proof.
  rewrite FloatAxioms.eqb_spec. change (Prim2SF 0) with (S754_zero false).
  destruct (Prim2SF x) as [s|s| |s m e]; try reflexivity; destruct s; reflexivity.
Qed.

Lemma float_ltb_false_leb (x y : float) :
  is_nan x = false -> is_nan y = false -> (x <? y) = false -> (y <=? x) = true.
Proof.
  rewrite !float_is_nan_spec, FloatAxioms.ltb_spec, FloatAxioms.leb_spec. unfold SFltb, SFleb.
  rewrite (SFcompare_antisym (Prim2SF x) (Prim2SF y)).
  destruct (Prim2SF x) as [sx|sx| |sx mx ex], (Prim2SF y) as [sy|sy| |sy my ey];
    try discriminate; intros _ _;
    destruct (SFcompare _ _) as [[]|] eqn:E; cbn; try congruence; cbn in E;
    congruence.
Qed.

Lemma iter_pos_inv {A : Type} (P : A -> Prop) (f : A -> A) :
  (forall x, P x -> P (f x)) -> forall n x, P x -> P (SpecFloat.iter_pos f n x).
Proof.
  intros Hf n. induction n as [n IH|n IH|]; intros x Hx; cbn; auto.
Qed.

Lemma shr_1_nonneg (mrs : shr_record) :
  (0 <= shr_m mrs)%Z -> (0 <= shr_m (shr_1 mrs))%Z.
Proof.
  destruct mrs as [m r s]; destruct m as [|p|p]; cbn; try lia;
    destruct p; cbn; lia.
Qed.

Lemma shr_fexp_nonneg (m e : Z) (l : location) :
  (0 <= m)%Z -> (0 <= shr_m (fst (shr_fexp prec emax m e l)))%Z.
Proof.
  intros Hm. unfold shr_fexp, shr.
  assert (H0 : (0 <= shr_m (shr_record_of_loc m l))%Z)
    by (destruct l as [|[]]; exact Hm).
  destruct (fexp prec emax (Zdigits2 m + e) - e)%Z; cbn [fst]; try exact H0.
  apply (iter_pos_inv (fun mrs => (0 <= shr_m mrs)%Z)); [apply shr_1_nonneg | exact H0].
Qed.

Lemma round_nearest_even_nonneg (m : Z) (l : location) :
  (0 <= m)%Z -> (0 <= round_nearest_even m l)%Z.
Proof.
  intros Hm. destruct l as [|[]]; cbn; try destruct (Z.even m); lia.
Qed.

(** Rounding a non-negative mantissa yields a zero, a finite number or an
    infinity of the given sign, never NaN. *)
Lemma binary_round_aux_cases (s : bool) (m e : Z) (l : location) :
  (0 <= m)%Z ->
  binary_round_aux prec emax s m e l = S754_zero s \/
  binary_round_aux prec emax s m e l = S754_infinity s \/
  exists m' e', binary_round_aux prec emax s m e l = S754_finite s m' e'.
Proof.
  intros Hm. unfold binary_round_aux.
  pose proof (shr_fexp_nonneg m e l Hm) as H1.
  destruct (shr_fexp prec emax m e l) as [mrs' e'] eqn:E1. cbn [fst] in H1.
  pose proof (shr_fexp_nonneg _ e' loc_Exact
                (round_nearest_even_nonneg _ (loc_of_shr_record mrs') H1)) as H2.
  destruct (shr_fexp prec emax _ e' loc_Exact) as [mrs'' e''] eqn:E2.
  cbn [fst] in H2.
  destruct (shr_m mrs'') as [|p|p]; [auto| |lia].
  destruct (e'' <=? emax - prec)%Z; eauto.
Qed.


Lemma bounded_inv (m : positive) (e : Z) :
  bounded prec emax m e = true ->
  fexp prec emax (Zpos (digits2_pos m) + e) = e /\ (e <=? emax - prec)%Z = true.
Proof.
  unfold bounded, canonical_mantissa. intros H.
  apply andb_prop in H as [H1 H2]. split; [apply Z.eqb_eq, H1 | exact H2].
Qed.

Lemma Zpos_succ_digit (p : positive) : Zpos (PosDef.Pos.succ p) = (Zpos p + 1)%Z.
Proof. change (PosDef.Pos.succ p) with (Pos.succ p). lia. Qed.

Lemma binary_round_aux_shift52 (s : bool) (m : positive) (e : Z) :
  bounded prec emax m e = true ->
  binary_round_aux prec emax s (Zpos (4503599627370496 * m)) (-52 + e) loc_Exact
  = S754_finite s m e.
Proof.
  intros [Hc Hb]%bounded_inv.
  unfold binary_round_aux, shr_fexp.
  cbv [Pos.mul]. cbn [Zdigits2 digits2_pos shr_record_of_loc].
  rewrite !Zpos_succ_digit.
  match goal with
  | |- context [shr _ _ ?n] =>
      replace n with 52%Z
        by (symmetry;
            match goal with
            | |- (fexp _ _ ?a - _ = _)%Z =>
                replace a with (Zpos (digits2_pos m) + e)%Z by lia
            end; rewrite Hc; lia)
  end.
  cbn [shr SpecFloat.iter_pos shr_1 orb shr_m loc_of_shr_record round_nearest_even
       Zdigits2 shr_record_of_loc].
  replace (-52 + e + 52)%Z with e by lia.
  rewrite Hc, Z.sub_diag. cbn [shr shr_m]. rewrite Hb. reflexivity.
Qed.

(** Multiplication is commutative, and [1] is neutral for it, on every
    binary64 value (NaN, infinities and zeros included). *)
Lemma float_mul_comm (x y : float) : x * y = y * x.
Proof.
  apply Prim2SF_inj. rewrite !mul_spec. unfold SF64mul, SFmul.
  destruct (Prim2SF x) as [sx|sx| |sx mx ex], (Prim2SF y) as [sy|sy| |sy my ey];
    try reflexivity; try (rewrite (xorb_comm sx sy); reflexivity).
  rewrite (xorb_comm sx sy), (Pos.mul_comm mx my), (Z.add_comm ex ey).
  reflexivity.
Qed.

Lemma float_mul_1_l (x : float) : 1 * x = x.
Proof.
  apply Prim2SF_inj. rewrite mul_spec.
  change (Prim2SF 1) with (S754_finite false 4503599627370496 (-52)).
  pose proof (Prim2SF_valid x) as Hv.
  unfold SF64mul, SFmul.
  destruct (Prim2SF x) as [s|s| |s m e]; try reflexivity.
  cbn [xorb]. apply binary_round_aux_shift52. exact Hv.
Qed.

Lemma float_mul_1_r (x : float) : x * 1 = x.
Proof. rewrite float_mul_comm. apply float_mul_1_l. Qed.


Lemma float_ltb_antisym (x y : float) : (x <? y) = true -> (y <? x) = false.
Proof.
  rewrite !FloatAxioms.ltb_spec. unfold SFltb.
  rewrite (SFcompare_antisym (Prim2SF x) (Prim2SF y)).
  destruct (SFcompare _ _) as [[]|]; cbn; congruence.
Qed.

Lemma float_is_nan_eq (x : float) : is_nan x = true -> x = nan.
Proof.
  rewrite float_is_nan_spec. intros H. apply Prim2SF_inj.
  change (Prim2SF nan) with S754_nan.
  destruct (Prim2SF x); congruence.
Qed.

Lemma float_classify_zero_ltb (x : float) :
  classify x = PZero \/ classify x = NZero -> (x <? 0.001) = true.
Proof.
  rewrite classify_spec, FloatAxioms.ltb_spec. unfold SF64classify, SFclassify.
  destruct (Prim2SF x) as [[]|[]| |[] m e]; intros [H|H]; try discriminate H;
    try reflexivity;
    destruct (Z.eqb _ _); discriminate H.
Qed.

(** [Math.min(Math.max(x, 0.001), 1000)] is the clamp to [[0.001, 1000]],
    NaN being left as it is. *)
Lemma F64_clamp_clamp_to (x : float) : F64.clamp x = F64.clamp_to 0.001 1000 x.
Proof.
  unfold F64.clamp, F64.clamp_to, F64.Math_max.
  destruct (is_nan x) eqn:Hnan.
  { apply float_is_nan_eq in Hnan. subst x. reflexivity. }
  change (is_nan 0.001) with false. cbn [orb].
  destruct (x <? 0.001) eqn:H1; [reflexivity|].
  assert (Hm : (if 0.001 <? x then x
                else match classify x with NZero => 0.001 | _ => x end) = x).
  { destruct (0.001 <? x); [reflexivity|].
    destruct (classify x) eqn:Hc; try reflexivity.
    rewrite float_classify_zero_ltb in H1 by auto. discriminate. }
  rewrite Hm. unfold F64.Math_min. rewrite Hnan.
  change (is_nan 1000) with false. cbn [orb].
  destruct (x <? 1000) eqn:H2.
  { rewrite (float_ltb_antisym _ _ H2). reflexivity. }
  destruct (1000 <? x); [reflexivity|].
  destruct (classify x) eqn:Hc; try reflexivity.
  rewrite float_classify_zero_ltb in H1 by auto. discriminate.
Qed.

Lemma F64_clamp_range (x : float) :
  is_nan x = false ->
  (0.001 <=? F64.clamp x) = true /\ (F64.clamp x <=? 1000) = true.
Proof.
  intros Hnan. rewrite F64_clamp_clamp_to. unfold F64.clamp_to.
  destruct (x <? 0.001) eqn:H1; [split; reflexivity|].
  destruct (1000 <? x) eqn:H2; [split; reflexivity|].
  split; apply float_ltb_false_leb; auto.
Qed.

Lemma float_range_finite (v : float) :
  (0.001 <=? v) = true -> (v <=? 1000) = true -> F64.finite v = true.
Proof.
  unfold F64.finite. rewrite float_is_nan_spec, float_is_infinity_spec, !FloatAxioms.leb_spec.
  unfold SFleb.
  let c := eval vm_compute in (Prim2SF 0.001) in change (Prim2SF 0.001) with c.
  let c := eval vm_compute in (Prim2SF 1000) in change (Prim2SF 1000) with c.
  destruct (Prim2SF v) as [s|[]| |s m e]; intros H1 H2; try reflexivity;
    vm_compute in H1, H2; congruence.
Qed.


Lemma float_finite_spec (x : float) :
  F64.finite x
  = match Prim2SF x with S754_zero _ | S754_finite _ _ _ => true | _ => false end.
Proof.
  unfold F64.finite. rewrite float_is_nan_spec, float_is_infinity_spec.
  destruct (Prim2SF x); reflexivity.
Qed.

Lemma SFdiv_core_nonneg (mx : positive) (ex : Z) (my : positive) (ey : Z) :
  (0 <= fst (fst (SFdiv_core_binary prec emax (Zpos mx) ex (Zpos my) ey)))%Z.
Proof.
  unfold SFdiv_core_binary.
  set (s := (ex - ey - _)%Z).
  set (m' := match s with
             | Zpos _ => Z.shiftl (Zpos mx) s
             | Z0 => Zpos mx
             | Zneg _ => 0%Z
             end).
  assert (Hm : (0 <= m')%Z).
  { subst m'. destruct s; try lia. apply Z.shiftl_nonneg. lia. }
  pose proof (Z.div_pos m' (Zpos my) Hm ltac:(lia)) as Hq.
  unfold Z.div in Hq. destruct (Z.div_eucl m' (Zpos my)) as [q r]. exact Hq.
Qed.

(** A finite number divided by a number that is neither NaN nor zero is
    not NaN (it may overflow to an infinity). *)
Lemma float_div_not_nan (x y : float) :
  F64.finite x = true -> is_nan y = false -> (y =? 0) = false ->
  is_nan (x / y) = false.
Proof.
  rewrite float_finite_spec, (float_is_nan_spec y), float_eqb_zero_spec, (float_is_nan_spec (x / y)), div_spec.
  unfold SF64div, SFdiv.
  destruct (Prim2SF x) as [sx|sx| |sx mx ex], (Prim2SF y) as [sy|sy| |sy my ey];
    try discriminate; try reflexivity. intros _ _ _.
  pose proof (SFdiv_core_nonneg mx ex my ey) as Hq.
  destruct (SFdiv_core_binary prec emax (Zpos mx) ex (Zpos my) ey) as [[q e'] l].
  cbn [fst] in Hq.
  destruct (binary_round_aux_cases (xorb sx sy) q e' l Hq) as [->|[->|(m' & e'' & ->)]];
    reflexivity.
Qed.

(** Adding a finite number to a number that is not NaN does not give NaN
    (it may overflow to an infinity). *)
Lemma float_add_not_nan (x y : float) :
  is_nan x = false -> F64.finite y = true -> is_nan (x + y) = false.
Proof.
  rewrite float_finite_spec, (float_is_nan_spec x), (float_is_nan_spec (x + y)), add_spec.
  unfold SF64add, SFadd.
  destruct (Prim2SF x) as [sx|sx| |sx mx ex], (Prim2SF y) as [sy|sy| |sy my ey];
    try discriminate; try reflexivity; try (destruct sx, sy; reflexivity).
  intros _ _. unfold binary_normalize.
  destruct (_ + _)%Z as [|p|p]; [reflexivity| |]; unfold binary_round;
    destruct (shl_align _ _ _) as [mz ez];
    match goal with
    | |- context [binary_round_aux _ _ ?s (Zpos ?m) ?e ?l] =>
        destruct (binary_round_aux_cases s (Zpos m) e l ltac:(lia))
          as [->|[->|(m' & e'' & ->)]]
    end; reflexivity.
Qed.



Lemma float_add_zero (x y : float) :
  (x =? 0) = true -> (y =? 0) = true -> (x + y =? 0) = true.
Proof.
  rewrite !float_eqb_zero_spec, add_spec. unfold SF64add, SFadd.
  destruct (Prim2SF x) as [sx|sx| |sx mx ex], (Prim2SF y) as [sy|sy| |sy my ey];
    try discriminate. destruct sx, sy; reflexivity.
Qed.

Lemma float_div_zero_one (x : float) : (x =? 0) = true -> (x / 1 =? 0) = true.
Proof.
  rewrite !float_eqb_zero_spec, div_spec.
  let c := eval vm_compute in (Prim2SF 1) in change (Prim2SF 1) with c.
  destruct (Prim2SF x) as [sx|sx| |sx mx ex]; try discriminate. reflexivity.
Qed.




(** ** Exact results

    Two cases in which an operation returns its exact result: a finite
    number other than zero divided by itself, and a zero added to such a
    number. *)






(** A zero times a finite number is a zero, and subtracting a zero from
    [1] leaves [1]. *)
Lemma float_mul_zero (x y : float) :
  (x =? 0) = true -> F64.finite y = true -> (x * y =? 0) = true.
Proof.
  rewrite float_finite_spec, !float_eqb_zero_spec, mul_spec.
  unfold SF64mul, SFmul.
  destruct (Prim2SF x) as [sx|sx| |sx mx ex]; try discriminate.
  destruct (Prim2SF y) as [sy|sy| |sy my ey]; try discriminate; reflexivity.
Qed.

Lemma float_one_sub_zero (z : float) : (z =? 0) = true -> 1 - z = 1.
Proof.
  rewrite float_eqb_zero_spec. intros Hz.
  apply Prim2SF_inj. rewrite sub_spec. unfold SF64sub, SFsub.
  let c := eval vm_compute in (Prim2SF 1) in change (Prim2SF 1) with c.
  destruct (Prim2SF z) as [sz|sz| |sz mz ez]; try discriminate. reflexivity.
Qed.

End FloatFacts.

(** * The Cluster Scorer on binary64 numbers *)

Section F64Facts.

Import F64.
Local Open Scope float_scope.
Set Warnings "-inexact-float".

(** ** The function returns *)

Lemma F64_catchall_loop_total (analysisData : list F64.Judgment)
    (ps : list F64.Prior) (i : nat) (wd : float) (js : list nat) (acc : float) :
  length ps = length analysisData →
  Forall (fun j => (j < length analysisData)%nat) js →
  is_Some (F64.catchall_loop analysisData ps i wd js acc).
Proof.
  intros Hlen Hjs. revert acc.
  induction Hjs as [|j js Hj _ IH]; intros acc; cbn; [by eexists|].
  destruct (Nat.eqb i j); [apply IH|].
  destruct (lookup_lt_is_Some_2 ps j) as [p Hp]; [by rewrite Hlen|].
  destruct (lookup_lt_is_Some_2 analysisData j) as [d Hd]; [done|].
  rewrite Hp, Hd. cbn. apply IH.
Qed.

Lemma F64_score_at_total (analysisData : list F64.Judgment) (i : nat) :
  (i < length analysisData)%nat →
  is_Some (F64.score_at analysisData (F64.priors analysisData) i).
Proof.
  intros Hi. unfold F64.score_at.
  assert (Hlen : length (F64.priors analysisData) = length analysisData)
    by apply length_map.
  destruct (lookup_lt_is_Some_2 analysisData i Hi) as [item ->].
  destruct (lookup_lt_is_Some_2 (F64.priors analysisData) i) as [p ->];
    [by rewrite Hlen|].
  cbn. destruct (_ <=? _); [by eexists|].
  destruct (F64_catchall_loop_total analysisData (F64.priors analysisData) i
              (1 - F64.val p) (seq 0 (length analysisData)) 0 Hlen
              (seq_bounded _)) as [acc ->].
  cbn. by eexists.
Qed.

Lemma F64_processBayesianConfirmation_total (analysisData : list F64.Judgment) :
  ∃ rs, F64.processBayesianConfirmation analysisData = Some rs ∧
        length rs = length analysisData.
Proof.
  assert (is_Some (F64.processBayesianConfirmation analysisData)) as [rs Hrs].
  { unfold F64.processBayesianConfirmation.
    apply mapM_is_Some, Forall_forall. intros i Hi. cbn.
    apply F64_score_at_total. apply elem_of_seq in Hi. lia. }
  exists rs. split; [exact Hrs|].
  apply length_mapM in Hrs. rewrite length_seq in Hrs. done.
Qed.

(** ** The records the function pushes *)

Implicit Types (analysisData : list Judgment) (ps : list Prior)
               (i j : nat) (js : list nat).

Lemma F64_priors_length analysisData :
  length (priors analysisData) = length analysisData.
Proof. unfold priors. apply length_map. Qed.

Lemma F64_priors_lookup analysisData i item :
  analysisData !! i = Some item →
  val <$> priors analysisData !! i = Some (Q_i item / safeSumQ analysisData).
Proof.
  intros H. unfold priors. rewrite list_lookup_fmap, H. reflexivity.
Qed.

Lemma F64_score_at_inv analysisData i r :
  score_at analysisData (priors analysisData) i = Some r →
  ∃ item, analysisData !! i = Some item ∧ scored analysisData i item r.
Proof.
  unfold score_at. intros H.
  destruct (analysisData !! i) as [item|] eqn:Hi; [|discriminate].
  exists item. split; [reflexivity|]. cbn in H.
  rewrite (F64_priors_lookup _ _ _ Hi) in H. cbn in H.
  destruct (_ <=? _) eqn:Hle.
  - injection H as <-. unfold scored. cbn. repeat split. left. by repeat split.
  - destruct (catchall_loop _ _ _ _ _ _) as [acc|] eqn:Hacc; [|discriminate].
    cbn in H. injection H as <-.
    unfold scored. cbn. repeat split. right. split; [exact Hle|].
    exists acc. by repeat split.
Qed.

(** The function returns one record per judgment, each related to its
    judgment by [scored]. *)
Lemma F64_processBayesianConfirmation_scored analysisData :
  ∃ rs,
    processBayesianConfirmation analysisData = Some rs ∧
    length rs = length analysisData ∧
    ∀ i r, rs !! i = Some r →
           ∃ item, analysisData !! i = Some item ∧ scored analysisData i item r.
Proof.
  destruct (F64_processBayesianConfirmation_total analysisData) as (rs & Hrs & Hlen).
  exists rs. split; [exact Hrs|]. split; [exact Hlen|].
  unfold processBayesianConfirmation in Hrs. apply mapM_Some_1 in Hrs.
  intros i r Hr.
  destruct (Forall2_lookup_r _ _ _ _ _ Hrs Hr) as (k & Hk & Hsc).
  apply lookup_seq in Hk as [-> _]. cbn in Hsc.
  by apply F64_score_at_inv.
Qed.

Lemma F64_processBayesianConfirmation_lookup analysisData i item :
  analysisData !! i = Some item →
  ∃ rs r,
    processBayesianConfirmation analysisData = Some rs ∧
    length rs = length analysisData ∧
    rs !! i = Some r ∧ scored analysisData i item r.
Proof.
  intros Hi.
  destruct (F64_processBayesianConfirmation_scored analysisData)
    as (rs & Hrs & Hlen & Hsc).
  destruct (lookup_lt_is_Some_2 rs i) as [r Hr].
  { rewrite Hlen. by eapply lookup_lt_Some. }
  exists rs, r. split; [exact Hrs|]. split; [exact Hlen|]. split; [exact Hr|].
  destruct (Hsc i r Hr) as (item' & Hi' & Hs). congruence.
Qed.

Lemma F64_processBayesianConfirmation_Forall2 analysisData :
  ∃ rs,
    processBayesianConfirmation analysisData = Some rs ∧
    Forall2 (fun item r => ∃ i, analysisData !! i = Some item ∧
                                scored analysisData i item r)
            analysisData rs.
Proof.
  destruct (F64_processBayesianConfirmation_scored analysisData)
    as (rs & Hrs & Hlen & Hsc).
  exists rs. split; [exact Hrs|].
  apply Forall2_same_length_lookup_2; [done|].
  intros i item r Hi Hr. exists i. split; [exact Hi|].
  destruct (Hsc i r Hr) as (item' & Hi' & Hs). congruence.
Qed.


(** ** The sum of the [Q] when some of them are zero *)

Lemma F64_fold_sumQ_zero (l : list Judgment) (a : float) :
  (a =? 0) = true →
  Forall (fun item => (Q_i item =? 0) = true) l →
  (fold_left (fun sum item => sum + Q_i item) l a =? 0) = true.
Proof.
  intros Ha Hl. revert a Ha.
  induction Hl as [|item l Hitem _ IH]; intros a Ha; cbn [fold_left]; [exact Ha|].
  apply IH. by apply float_add_zero.
Qed.




(** When every [Q] is zero the divisor of the priors is the substituted
    [1] and every prior is a zero. *)
Lemma F64_priors_zero analysisData :
  Forall (fun item => (Q_i item =? 0) = true) analysisData →
  safeSumQ analysisData = 1 ∧
  ∀ j pj, priors analysisData !! j = Some pj → (val pj =? 0) = true.
Proof.
  intros Hz.
  assert (Hs : safeSumQ analysisData = 1).
  { unfold safeSumQ, sumQ. by rewrite F64_fold_sumQ_zero. }
  split; [exact Hs|]. intros j pj Hj. unfold priors in Hj.
  rewrite list_lookup_fmap in Hj.
  destruct (analysisData !! j) as [item|] eqn:Hitem; [|discriminate].
  injection Hj as <-. cbn. rewrite Hs. apply float_div_zero_one.
  rewrite Forall_forall in Hz. apply Hz. by eapply list_elem_of_lookup_2.
Qed.

(** With every prior zero and every likelihood finite, the inner loop
    started from a zero with the denominator [1] ends on a zero. *)
Lemma F64_catchall_loop_zero analysisData ps i js (a : float) :
  (∀ j pj, ps !! j = Some pj → (val pj =? 0) = true) →
  (∀ j item, j ≠ i → analysisData !! j = Some item → finite (U_i item) = true) →
  (a =? 0) = true →
  ∀ acc, catchall_loop analysisData ps i 1 js a = Some acc → (acc =? 0) = true.
Proof.
  intros Hp Hu. revert a.
  induction js as [|j js IH]; intros a Ha acc; cbn [catchall_loop].
  - intros [= <-]. exact Ha.
  - destruct (Nat.eqb i j) eqn:Eij; [by apply IH|].
    apply Nat.eqb_neq in Eij.
    destruct (ps !! j) as [pj|] eqn:Hpj; [|discriminate].
    destruct (analysisData !! j) as [item|] eqn:Hitem; [|discriminate].
    cbn. apply IH. apply float_add_zero; [exact Ha|].
    apply float_mul_zero; [|by apply (Hu j); [congruence|]].
    apply float_div_zero_one. by apply (Hp j).
Qed.


(** * The claims about the Cluster Scorer on binary64 numbers *)

(** C4 fails as stated on binary64 numbers: on the scenario's input the
    catch-all likelihoods are not [1] and [5] and the LR values are not [5]
    and [0.2]; each differs from the stated value in the last place. *)
Lemma C4_counterexample :
  ∃ r1 r2,
    processBayesianConfirmation [mkJudgment "H1" 2 5; mkJudgment "H2" 1 1]
    = Some [r1; r2] ∧
    (catchall_P_E_NotH r1 =? 1) = false ∧ (LR r1 =? 5) = false ∧
    (catchall_P_E_NotH r2 =? 5) = false ∧ (LR r2 =? 0.2) = false.
Proof.
  eexists _, _. split; [vm_compute; reflexivity|].
  repeat split; vm_compute; reflexivity.
Qed.

(** C4 (amended). On the single cluster [H1:{Q=2,U=5}], [H2:{Q=1,U=1}]
    the Scorer emits the priors [2/3] and [1/3] (the binary64 quotients),
    the catch-all likelihoods [0.9999999999999999] (for H1) and
    [4.999999999999999] (for H2) and the LR values [5.000000000000001] for
    H1 and [0.20000000000000004] for H2: the values 1, 5, 5 and 0.2 up to
    an error below [1e-15]. *)
Theorem C4_two_hypothesis_scenario :
  ∃ r1 r2,
    processBayesianConfirmation [mkJudgment "H1" 2 5; mkJudgment "H2" 1 1]
    = Some [r1; r2] ∧
    (res_hypothesis_id r1 = "H1" ∧ prior_P_H r1 = 2 / 3 ∧
     likelihood_P_E_H r1 = 5 ∧
     catchall_P_E_NotH r1 = 0.9999999999999999 ∧
     LR r1 = 5.000000000000001 ∧
     within 1e-15 (catchall_P_E_NotH r1) 1 = true ∧
     within 1e-15 (LR r1) 5 = true) ∧
    (res_hypothesis_id r2 = "H2" ∧ prior_P_H r2 = 1 / 3 ∧
     likelihood_P_E_H r2 = 1 ∧
     catchall_P_E_NotH r2 = 4.999999999999999 ∧
     LR r2 = 0.20000000000000004 ∧
     within 1e-15 (catchall_P_E_NotH r2) 5 = true ∧
     within 1e-15 (LR r2) 0.2 = true).
Proof.
  eexists _, _. split; [vm_compute; reflexivity|].
  repeat split; vm_compute; reflexivity.
Qed.




(** C10. On the non-degenerate path, when the accumulated catch-all sum is
    zero, the emitted catchall field is that raw accumulated value (zero,
    not [0.001]), while the emitted LR is [U_i / 0.001] clamped to the
    interval [[0.001, 1000]].  The zero-sum fallback is such a case: when
    every [Q] is zero (and every likelihood finite) each record reports
    catchall zero and the clamp of [U_i / 0.001]. *)
Theorem C10_zero_catchall_substitution analysisData i item :
  analysisData !! i = Some item →
  ∃ rs r,
    processBayesianConfirmation analysisData = Some rs ∧
    rs !! i = Some r ∧
    (∀ acc,
       (1 - Q_i item / safeSumQ analysisData <=? 0.0001) = false →
       catchall_loop analysisData (priors analysisData) i
                     (1 - Q_i item / safeSumQ analysisData)
                     (seq 0 (length analysisData)) 0 = Some acc →
       (acc =? 0) = true →
       catchall_P_E_NotH r = acc ∧
       (catchall_P_E_NotH r =? 0) = true ∧
       (catchall_P_E_NotH r =? 0.001) = false ∧
       LR r = clamp_to 0.001 1000 (U_i item / 0.001)) ∧
    (Forall (fun other => (Q_i other =? 0) = true ∧ finite (U_i other) = true)
            analysisData →
     (catchall_P_E_NotH r =? 0) = true ∧
     (catchall_P_E_NotH r =? 0.001) = false ∧
     LR r = clamp_to 0.001 1000 (U_i item / 0.001)).
Proof.
  intros Hi.
  destruct (F64_processBayesianConfirmation_lookup analysisData i item Hi)
    as (rs & r & Hrs & Hlen & Hr & Hid & Hp & Hu & Hcases).
  exists rs, r. split; [exact Hrs|]. split; [exact Hr|].
  rewrite Hp in Hcases.
  assert (Hpath : ∀ acc,
    (1 - Q_i item / safeSumQ analysisData <=? 0.0001) = false →
    catchall_loop analysisData (priors analysisData) i
                  (1 - Q_i item / safeSumQ analysisData)
                  (seq 0 (length analysisData)) 0 = Some acc →
    (acc =? 0) = true →
    catchall_P_E_NotH r = acc ∧
    (catchall_P_E_NotH r =? 0) = true ∧
    (catchall_P_E_NotH r =? 0.001) = false ∧
    LR r = clamp_to 0.001 1000 (U_i item / 0.001)).
  { intros acc Hn Hacc Hz.
    destruct Hcases as [(Hle & _)|(_ & acc' & Hacc' & Hc & Hl)]; [congruence|].
    rewrite Hacc in Hacc'. injection Hacc' as <-.
    rewrite Hc, Hl, Hz. split; [reflexivity|]. split; [reflexivity|]. split.
    - rewrite float_eqb_zero_spec in Hz. rewrite FloatAxioms.eqb_spec.
      destruct (FloatOps.Prim2SF acc) as [s|s| |s m e]; try discriminate.
      destruct s; reflexivity.
    - apply F64_clamp_clamp_to. }
  split; [exact Hpath|].
  intros Hall.
  assert (HQ : Forall (fun other => (Q_i other =? 0) = true) analysisData).
  { eapply Forall_impl; [exact Hall|]. by intros ? [? _]. }
  destruct (F64_priors_zero analysisData HQ) as [Hs Hps].
  assert (Hd : 1 - Q_i item / safeSumQ analysisData = 1).
  { rewrite Hs. apply float_one_sub_zero, float_div_zero_one.
    rewrite Forall_forall in HQ. apply HQ. by eapply list_elem_of_lookup_2. }
  destruct (F64_catchall_loop_total analysisData (priors analysisData) i 1
              (seq 0 (length analysisData)) 0 (F64_priors_length _)
              (seq_bounded _)) as [acc Hacc].
  assert (Hz : (acc =? 0) = true).
  { apply (F64_catchall_loop_zero analysisData (priors analysisData) i
             (seq 0 (length analysisData)) 0 Hps); [|reflexivity|exact Hacc].
    intros j other _ Hj. rewrite Forall_forall in Hall.
    apply (Hall other). by eapply list_elem_of_lookup_2. }
  rewrite Hd in Hpath. apply (Hpath acc eq_refl Hacc Hz).
Qed.

Lemma C10_witness :
  (∃ rs r,
     processBayesianConfirmation [mkJudgment "H1" 1 0.5; mkJudgment "H2" 1 0]
     = Some rs ∧
     rs !! 0%nat = Some r ∧
     catchall_P_E_NotH r = 0 ∧
     (catchall_P_E_NotH r =? 0) = true ∧
     (catchall_P_E_NotH r =? 0.001) = false ∧
     LR r = 500) ∧
  (∃ rs r,
     processBayesianConfirmation [mkJudgment "H1" 1 3; mkJudgment "H2" 1 0]
     = Some rs ∧
     rs !! 0%nat = Some r ∧
     catchall_P_E_NotH r = 0 ∧
     LR r = 1000) ∧
  (∃ rs r,
     processBayesianConfirmation [mkJudgment "H1" 0 0.25; mkJudgment "H2" 0 8]
     = Some rs ∧
     rs !! 0%nat = Some r ∧
     (catchall_P_E_NotH r =? 0) = true ∧
     (catchall_P_E_NotH r =? 0.001) = false ∧
     LR r = 250).
Proof.
  split; [|split].
  - destruct (C10_zero_catchall_substitution
                [mkJudgment "H1" 1 0.5; mkJudgment "H2" 1 0] 0
                (mkJudgment "H1" 1 0.5) eq_refl)
      as (rs & r & Hrs & Hr & Hpath & _).
    exists rs, r. split; [exact Hrs|]. split; [exact Hr|].
    apply (Hpath 0); reflexivity.
  - destruct (C10_zero_catchall_substitution
                [mkJudgment "H1" 1 3; mkJudgment "H2" 1 0] 0
                (mkJudgment "H1" 1 3) eq_refl)
      as (rs & r & Hrs & Hr & Hpath & _).
    exists rs, r. split; [exact Hrs|]. split; [exact Hr|].
    destruct (Hpath 0) as (Hc & _ & _ & Hl); [reflexivity..|].
    split; [exact Hc|exact Hl].
  - destruct (C10_zero_catchall_substitution
                [mkJudgment "H1" 0 0.25; mkJudgment "H2" 0 8] 0
                (mkJudgment "H1" 0 0.25) eq_refl)
      as (rs & r & Hrs & Hr & _ & Hzero).
    exists rs, r. split; [exact Hrs|]. split; [exact Hr|].
    apply Hzero. repeat constructor.
Defined.


(** ** Finite judgments *)

Lemma F64_fold_sumQ_not_nan (l : list Judgment) (a : float) :
  is_nan a = false →
  Forall (fun item => finite (Q_i item) = true) l →
  is_nan (fold_left (fun sum item => sum + Q_i item) l a) = false.
Proof.
  intros Ha Hl. revert a Ha.
  induction Hl as [|item l Hitem _ IH]; intros a Ha; cbn [fold_left]; [exact Ha|].
  apply IH. by apply float_add_not_nan.
Qed.

Lemma F64_safeSumQ_divisor analysisData :
  Forall (fun item => finite (Q_i item) = true) analysisData →
  is_nan (safeSumQ analysisData) = false ∧ (safeSumQ analysisData =? 0) = false.
Proof.
  intros Hfin. unfold safeSumQ.
  destruct (sumQ analysisData =? 0) eqn:E; [split; reflexivity|].
  split; [|exact E]. by apply F64_fold_sumQ_not_nan.
Qed.

Lemma F64_scored_LR_range analysisData i item r :
  scored analysisData i item r →
  finite (U_i item) = true →
  is_nan (catchall_P_E_NotH r) = false →
  (0.001 <=? LR r) = true ∧ (LR r <=? 1000) = true.
Proof.
  intros (_ & _ & _ & [(_ & _ & ->)|(_ & acc & _ & -> & ->)]) HU Hacc.
  - split; reflexivity.
  - apply F64_clamp_range. apply float_div_not_nan; [exact HU|..];
      destruct (acc =? 0) eqn:E; try reflexivity; assumption.
Qed.

(** C8 fails as stated on binary64 numbers.  On the finite judgments
    [Q = 2^700, -2^700, 2^-700] (all [U = 1]) the sum of the [Q] is
    [2^-700], so the first two priors overflow to [+infinity] and
    [-infinity]; the second record then has catchall and LR equal to NaN
    ([infinity / infinity]), which [Math.max] and [Math.min] propagate.
    Non-negative judgments do not exclude it either: with [Q = 1, 4] and
    both [U] the largest finite number, the weight [0.2 / (1 - 0.8)] is
    rounded above 1 and the catch-all sum of the second record overflows to
    [+infinity]. *)
Lemma C8_counterexample :
  (forallb (fun item => F64.finite (F64.Q_i item) && F64.finite (F64.U_i item))
           [F64.mkJudgment "H1" 0x1p700 1; F64.mkJudgment "H2" (-0x1p700) 1;
            F64.mkJudgment "H3" 0x1p-700 1] = true ∧
   F64.processBayesianConfirmation
     [F64.mkJudgment "H1" 0x1p700 1; F64.mkJudgment "H2" (-0x1p700) 1;
      F64.mkJudgment "H3" 0x1p-700 1]
   = Some [F64.mkResult "H1" infinity 1 0 1;
           F64.mkResult "H2" neg_infinity 1 nan nan;
           F64.mkResult "H3" 1 1 0 1] ∧
   forallb F64.all_finite
           [F64.mkResult "H1" infinity 1 0 1;
            F64.mkResult "H2" neg_infinity 1 nan nan;
            F64.mkResult "H3" 1 1 0 1] = false) ∧
  (forallb (fun item => F64.finite (F64.Q_i item) && F64.finite (F64.U_i item)
                        && (0 <=? F64.Q_i item) && (0 <=? F64.U_i item))
           [F64.mkJudgment "H1" 1 0x1.fffffffffffffp1023;
            F64.mkJudgment "H2" 4 0x1.fffffffffffffp1023] = true ∧
   ∃ p1 p2,
     F64.processBayesianConfirmation
       [F64.mkJudgment "H1" 1 0x1.fffffffffffffp1023;
        F64.mkJudgment "H2" 4 0x1.fffffffffffffp1023]
     = Some [F64.mkResult "H1" p1 0x1.fffffffffffffp1023
                          0x1.fffffffffffffp1023 1;
             F64.mkResult "H2" p2 0x1.fffffffffffffp1023 infinity 0x1.0624dd2f1a9fcp-10] ∧
     F64.finite infinity = false).
Proof.
  split.
  - repeat split; vm_compute; reflexivity.
  - split; [vm_compute; reflexivity|].
    eexists _, _. split; vm_compute; reflexivity.
Qed.

(** C8 (amended). For every judgment list of finite [Q] and [U] values,
    negative values included, the Scorer returns normally with one record
    per judgment; every likelihood is the finite [U_i], no prior is NaN,
    and in every record whose catchall is not NaN the LR is a finite number
    of the interval [[0.001, 1000]]. *)
Theorem C8_finite_judgments analysisData :
  analysisData ≠ [] →
  Forall (fun item => finite (Q_i item) = true ∧ finite (U_i item) = true)
         analysisData →
  ∃ rs,
    processBayesianConfirmation analysisData = Some rs ∧
    length rs = length analysisData ∧
    Forall2 (fun item r =>
               likelihood_P_E_H r = U_i item ∧
               finite (likelihood_P_E_H r) = true ∧
               is_nan (prior_P_H r) = false ∧
               (is_nan (catchall_P_E_NotH r) = false →
                finite (LR r) = true ∧
                (0.001 <=? LR r) = true ∧ (LR r <=? 1000) = true))
            analysisData rs.
Proof.
  intros _ Hfin.
  assert (HQ : Forall (fun item => finite (Q_i item) = true) analysisData).
  { eapply Forall_impl; [exact Hfin|]. by intros ? [? _]. }
  destruct (F64_safeSumQ_divisor analysisData HQ) as [Hs1 Hs2].
  destruct (F64_processBayesianConfirmation_Forall2 analysisData)
    as (rs & Hrs & Hsc).
  exists rs. split; [exact Hrs|]. split.
  { symmetry. by eapply Forall2_length. }
  eapply Forall2_impl_elem; [exact Hsc|]. cbn.
  intros item r Hin (i & Hi & Hs).
  rewrite Forall_forall in Hfin. destruct (Hfin _ Hin) as [HfQ HfU].
  pose proof Hs as (_ & Hp & Hu & _).
  split; [exact Hu|]. split; [by rewrite Hu|]. split.
  - rewrite Hp. by apply float_div_not_nan.
  - intros Hc.
    destruct (F64_scored_LR_range _ _ _ _ Hs HfU Hc) as [H1 H2].
    split; [by apply float_range_finite|]. by split.
Qed.

Lemma C8_witness :
  ∃ rs,
    processBayesianConfirmation
      [mkJudgment "H1" (-1) 2; mkJudgment "H2" 3 (-4); mkJudgment "H3" 0 0.5]
    = Some rs ∧
    length rs = 3%nat ∧
    Forall2 (fun item r =>
               likelihood_P_E_H r = U_i item ∧
               finite (likelihood_P_E_H r) = true ∧
               is_nan (prior_P_H r) = false ∧
               (is_nan (catchall_P_E_NotH r) = false →
                finite (LR r) = true ∧
                (0.001 <=? LR r) = true ∧ (LR r <=? 1000) = true))
            [mkJudgment "H1" (-1) 2; mkJudgment "H2" 3 (-4); mkJudgment "H3" 0 0.5]
            rs.
Proof.
  apply (C8_finite_judgments
           [mkJudgment "H1" (-1) 2; mkJudgment "H2" 3 (-4); mkJudgment "H3" 0 0.5]).
  - discriminate.
  - repeat constructor.
Defined.


(** ** Judgment lists whose entries are all alike *)






(** ** The priors *)





End F64Facts.

(** * Plain objects: reading and writing properties *)

Section JsObjectFacts.

Import JsObject.
Context {N : Type}.

Implicit Types (o : gmap string N) (k h : string) (x : N).

Lemma js_plain_not_proto h : inherited h = false → h ≠ "__proto__".
Proof. intros H ->. discriminate H. Qed.

Lemma js_get_plain o h :
  inherited h = false →
  get o h = match o !! h with Some x => Number x | None => Undefined end.
Proof. intros H. unfold get. by rewrite H. Qed.

Lemma js_set_lookup_ne o k x h : k ≠ h → set o k x !! h = o !! h.
Proof.
  intros Hne. unfold set.
  destruct (String.eqb k "__proto__"); [destruct (o !! k)|];
    by rewrite ?lookup_insert_ne.
Qed.

Lemma js_set_lookup o k x :
  set o k x !! k
  = if String.eqb k "__proto__"
    then match o !! k with Some _ => Some x | None => None end
    else Some x.
Proof.
  unfold set. destruct (String.eqb k "__proto__").
  - destruct (o !! k) eqn:E; [by rewrite lookup_insert_eq|exact E].
  - by rewrite lookup_insert_eq.
Qed.

Lemma js_set_lookup_plain o k x : k ≠ "__proto__" → set o k x !! k = Some x.
Proof.
  intros Hne. rewrite js_set_lookup.
  destruct (String.eqb_spec k "__proto__"); [contradiction|reflexivity].
Qed.

(** A write creates at most the property it names, and never an own
    property ["__proto__"]. *)
Lemma js_set_is_Some o k x h :
  is_Some (set o k x !! h) ↔ is_Some (o !! h) ∨ (k = h ∧ h ≠ "__proto__").
Proof.
  destruct (decide (k = h)) as [->|Hne].
  - rewrite js_set_lookup. destruct (String.eqb_spec h "__proto__") as [->|Hp].
    + destruct (o !! "__proto__") as [y|]; split.
      * intros _. left. by eexists.
      * intros _. by eexists.
      * by intros [? ?].
      * intros [[? ?]|[_ ?]]; done.
    + split; [intros _; by right|intros _; by eexists].
  - rewrite js_set_lookup_ne by done. split; [by left|].
    intros [?|[? _]]; done.
Qed.


End JsObjectFacts.

(** * Properties of the Cross-Cluster Combiner *)

Section Combiner64Facts.

Import JsObject Combiner64.
Local Open Scope float_scope.
Set Warnings "-inexact-float".

Implicit Types (scores lrs : gmap string float)
               (cs : list (gmap string float)) (h k : string).

(** ** One cluster *)

Lemma combine_cluster_lookup scores lrs h :
  combine_cluster scores lrs !! h =
  match lrs !! h with
  | Some v => set scores h (or_1 (get scores h) * v) !! h
  | None => scores !! h
  end.
Proof.
  unfold combine_cluster. revert h.
  apply (map_fold_weak_ind
           (fun r (m : gmap string float) =>
              ∀ h, r !! h = match m !! h with
                            | Some v => set scores h (or_1 (get scores h) * v) !! h
                            | None => scores !! h
                            end)).
  - intros h. by rewrite lookup_empty.
  - intros k v m r Hk IH h. destruct (decide (k = h)) as [->|Hne].
    + rewrite lookup_insert_eq, !js_set_lookup. unfold get.
      specialize (IH h). rewrite Hk in IH. by rewrite IH.
    + rewrite js_set_lookup_ne, lookup_insert_ne by done. apply IH.
Qed.


(** ** A list of clusters *)

Lemma fold_combine_lookup cs scores h :
  inherited h = false →
  fold_left combine_cluster cs scores !! h
  = fold_left next_score (entries h cs) (scores !! h).
Proof.
  intros Hh. unfold entries. revert scores.
  induction cs as [|lrs cs IH]; intros scores; [reflexivity|].
  cbn [fold_left omap list_omap]. rewrite IH, combine_cluster_lookup.
  destruct (lrs !! h) as [v|]; [|reflexivity].
  cbn [fold_left]. f_equal.
  rewrite js_set_lookup_plain by by apply js_plain_not_proto.
  unfold next_score. by rewrite js_get_plain.
Qed.

Lemma combine_lookup cs h :
  inherited h = false →
  combine cs !! h = fold_left next_score (entries h cs) None.
Proof.
  intros Hh. unfold combine. rewrite fold_combine_lookup by done.
  by rewrite lookup_empty.
Qed.

(** A product that is neither zero nor NaN has no factor that is zero or
    NaN. *)
Lemma truthy_spec (x : float) :
  truthy x
  = match FloatOps.Prim2SF x with
    | SpecFloat.S754_finite _ _ _ | SpecFloat.S754_infinity _ => true
    | _ => false
    end.
Proof.
  unfold truthy. rewrite float_eqb_zero_spec, float_is_nan_spec.
  by destruct (FloatOps.Prim2SF x).
Qed.

Lemma truthy_mul (x y : float) :
  truthy (x * y) = true → truthy x = true ∧ truthy y = true.
Proof.
  rewrite !truthy_spec, FloatAxioms.mul_spec.
  unfold FloatAxioms.SF64mul, SpecFloat.SFmul.
  destruct (FloatOps.Prim2SF x) as [sx|sx| |sx mx ex],
           (FloatOps.Prim2SF y) as [sy|sy| |sy my ey]; try discriminate; done.
Qed.

Lemma running_truthy (a : float) (vs : list float) :
  Forall (fun p => truthy p = true) (running a vs) →
  Forall (fun v => truthy v = true) vs.
Proof.
  revert a. induction vs as [|v vs IH]; intros a; cbn [running]; [constructor|].
  intros [Hv Hvs]%Forall_cons_1. constructor; [|by eapply IH].
  by destruct (truthy_mul _ _ Hv).
Qed.

Lemma fold_next_score_product (vs : list float) (a : float) :
  truthy a = true →
  Forall (fun p => truthy p = true) (running a vs) →
  fold_left next_score vs (Some a) = Some (fold_left mul vs a).
Proof.
  revert a. induction vs as [|v vs IH]; intros a Ha; cbn [running fold_left];
    [reflexivity|].
  intros [Hv Hvs]%Forall_cons_1.
  unfold next_score at 2. cbn [or_1]. rewrite Ha. by apply IH.
Qed.

Lemma next_score_product (vs : list float) :
  Forall (fun p => truthy p = true) (running 1 vs) →
  fold_left next_score vs None
  = match vs with [] => None | _ :: _ => Some (product vs) end.
Proof.
  destruct vs as [|v vs]; [reflexivity|]. cbn [running fold_left].
  intros [Hv Hvs]%Forall_cons_1. unfold product. cbn [fold_left].
  unfold next_score at 2. cbn [or_1]. by apply fold_next_score_product.
Qed.

Lemma fold_rawScore cs h (a : float) :
  inherited h = false →
  Forall (fun v => truthy v = true) (entries h cs) →
  fold_left (fun score lrs => let lr := or_1 (get lrs h) in score * lr) cs a
  = fold_left mul (entries h cs) a.
Proof.
  intros Hh. unfold entries. revert a.
  induction cs as [|lrs cs IH]; intros a; [reflexivity|].
  cbn [fold_left omap list_omap]. rewrite js_get_plain by done.
  destruct (lrs !! h) as [v|]; cbn [or_1 fold_left].
  - intros [Hv Hvs]%Forall_cons_1. rewrite Hv. by apply IH.
  - intros Hvs. rewrite float_mul_1_r. by apply IH.
Qed.

Lemma entries_all_one cs h :
  (∀ lrs, lrs ∈ cs → lrs !! h = Some 1) →
  entries h cs = replicate (length cs) 1.
Proof.
  unfold entries. induction cs as [|lrs cs IH]; intros Hall; [reflexivity|].
  cbn [omap list_omap length replicate].
  rewrite (Hall lrs) by left. f_equal. apply IH.
  intros c Hc. apply Hall. by right.
Qed.

Lemma running_ones (n : nat) :
  Forall (fun p => truthy p = true) (running 1 (replicate n 1)).
Proof.
  induction n as [|n IH]; cbn [replicate running]; [constructor|].
  change (1 * 1) with 1. by constructor.
Qed.

Lemma product_ones (n : nat) : product (replicate n 1) = 1.
Proof.
  unfold product. induction n as [|n IH]; [reflexivity|].
  cbn [replicate fold_left]. exact IH.
Qed.


(** * The claims about the Cross-Cluster Combiner *)

(** C3 fails as stated.  An LR value of zero is treated like a missing
    value by [x || 1]: the clusters [{H: 0}], [{H: 5}] give 5 in both
    combiners, the product is 0.  A running product that underflows to zero
    is treated alike by [chatWithAnalyst]: 110 clusters with LR 0.001
    followed by one with LR 1000 give 0.001 there and 0 in [radarData].  And
    an id that names a member of [Object.prototype] is not read as missing:
    [rawScore] is NaN for ["constructor"] on a cluster without entries. *)
Lemma C3_counterexample :
  (entries "H" [({[ "H" := 0 ]} : gmap string float); {[ "H" := 5 ]}] = [0; 5] ∧
   product [0; 5] = 0 ∧
   combine [({[ "H" := 0 ]} : gmap string float); {[ "H" := 5 ]}] !! "H" = Some 5 ∧
   rawScore [({[ "H" := 0 ]} : gmap string float); {[ "H" := 5 ]}] "H" = 5) ∧
  (combine (replicate 110 ({[ "H" := 0.001 ]} : gmap string float)
            ++ [{[ "H" := 1000 ]}]) !! "H" = Some 0.001 ∧
   rawScore (replicate 110 ({[ "H" := 0.001 ]} : gmap string float)
             ++ [{[ "H" := 1000 ]}]) "H" = 0) ∧
  (entries "constructor" [(∅ : gmap string float)] = [] ∧
   rawScore [(∅ : gmap string float)] "constructor" = nan ∧
   combine [({[ "constructor" := 1 ]} : gmap string float)] !! "constructor"
   = Some nan).
Proof. repeat split; vm_compute; reflexivity. Qed.

(** C3 (amended). For a hypothesis whose id does not name a member of
    [Object.prototype]: combining the empty list gives the empty mapping;
    as long as no running product of the hypothesis's LR values is zero or
    NaN, [chatWithAnalyst] maps the hypothesis to the product of its LR
    values over the clusters that hold an entry for it (multiplied from
    left to right on binary64 numbers), to nothing when no cluster does,
    and [radarData]'s [rawScore] is the same product, a cluster without an
    entry contributing the neutral factor 1; and if every cluster of a
    non-empty list reports LR 1 for the hypothesis, its cumulative score
    is 1. *)
Theorem C3_combiner_product cs h :
  inherited h = false →
  combine [] = ∅ ∧
  (Forall (fun p => truthy p = true) (running 1 (entries h cs)) →
   combine cs !! h
   = match entries h cs with
     | [] => None
     | _ :: _ => Some (product (entries h cs))
     end ∧
   rawScore cs h = product (entries h cs)) ∧
  (cs ≠ [] → (∀ lrs, lrs ∈ cs → lrs !! h = Some 1) →
   combine cs !! h = Some 1 ∧ rawScore cs h = 1).
Proof.
  intros Hh. split; [reflexivity|].
  assert (Hmain :
    Forall (fun p => truthy p = true) (running 1 (entries h cs)) →
    combine cs !! h
    = match entries h cs with
      | [] => None
      | _ :: _ => Some (product (entries h cs))
      end ∧
    rawScore cs h = product (entries h cs)).
  { intros Hrun. split.
    - rewrite combine_lookup by done. by apply next_score_product.
    - unfold rawScore, product. apply fold_rawScore; [done|].
      by eapply running_truthy. }
  split; [exact Hmain|].
  intros Hne Hall.
  pose proof (entries_all_one cs h Hall) as He.
  destruct Hmain as [Hc Hr]; [rewrite He; apply running_ones|].
  rewrite Hc, Hr, He, product_ones.
  destruct cs as [|c cs]; [done|]. done.
Qed.

Lemma C3_witness :
  (combine [({[ "H" := 4 ]} : gmap string float); {[ "G" := 3 ]};
            {[ "H" := 0.5 ]}] !! "H" = Some 2 ∧
   rawScore [({[ "H" := 4 ]} : gmap string float); {[ "G" := 3 ]};
             {[ "H" := 0.5 ]}] "H" = 2) ∧
  (combine [({[ "H" := 4 ]} : gmap string float); {[ "G" := 3 ]};
            {[ "H" := 0.5 ]}] !! "K" = None ∧
   rawScore [({[ "H" := 4 ]} : gmap string float); {[ "G" := 3 ]};
             {[ "H" := 0.5 ]}] "K" = 1) ∧
  (combine [({[ "H" := 1 ]} : gmap string float); {[ "H" := 1 ]}] !! "H" = Some 1 ∧
   rawScore [({[ "H" := 1 ]} : gmap string float); {[ "H" := 1 ]}] "H" = 1).
Proof.
  split; [|split].
  - destruct (C3_combiner_product
                [({[ "H" := 4 ]} : gmap string float); {[ "G" := 3 ]};
                 {[ "H" := 0.5 ]}] "H" eq_refl) as (_ & H & _).
    apply H. vm_compute. repeat constructor.
  - destruct (C3_combiner_product
                [({[ "H" := 4 ]} : gmap string float); {[ "G" := 3 ]};
                 {[ "H" := 0.5 ]}] "K" eq_refl) as (_ & H & _).
    apply H. vm_compute. constructor.
  - destruct (C3_combiner_product
                [({[ "H" := 1 ]} : gmap string float); {[ "H" := 1 ]}]
                "H" eq_refl) as (_ & _ & H).
    apply H; [discriminate|].
    intros lrs Hin.
    repeat (apply elem_of_cons in Hin as [->|Hin]);
      [reflexivity..|by apply elem_of_nil in Hin].
Defined.


(** ** The hypotheses that receive a score *)








(** ** The placeholders of the structuring phase *)

Lemma fold_placeholder_lookup (arr : list string) (m : gmap string float) h :
  h ≠ "__proto__" →
  fold_left (fun clusterLrs id => set clusterLrs id 1) arr m !! h
  = if decide (h ∈ arr) then Some 1 else m !! h.
Proof.
  intros Hp. revert m. induction arr as [|id arr IH]; intros m; cbn [fold_left].
  - rewrite decide_False by apply not_elem_of_nil. reflexivity.
  - rewrite IH. destruct (decide (h ∈ arr)) as [Hin|Hnot].
    + rewrite decide_True by (by right). reflexivity.
    + destruct (decide (id = h)) as [->|Hne].
      * rewrite decide_True by left. by apply js_set_lookup_plain.
      * rewrite decide_False.
        -- by apply js_set_lookup_ne.
        -- rewrite not_elem_of_cons. by split.
Qed.

Lemma fold_placeholder_proto (arr : list string) (m : gmap string float) :
  m !! "__proto__" = None →
  fold_left (fun clusterLrs id => set clusterLrs id 1) arr m !! "__proto__" = None.
Proof.
  revert m. induction arr as [|id arr IH]; intros m Hm; cbn [fold_left]; [exact Hm|].
  apply IH. destruct (decide (id = "__proto__")) as [->|Hne].
  - rewrite js_set_lookup. cbn. by rewrite Hm.
  - by rewrite js_set_lookup_ne.
Qed.

Lemma placeholder_lrs_lookup (arr : list string) h :
  placeholder_lrs (Some arr) !! h
  = if decide (h ∈ arr ∧ h ≠ "__proto__") then Some 1 else None.
Proof.
  unfold placeholder_lrs. destruct (decide (h = "__proto__")) as [->|Hp].
  - rewrite fold_placeholder_proto by apply lookup_empty.
    rewrite decide_False; [reflexivity|]. by intros [_ ?].
  - rewrite fold_placeholder_lookup, lookup_empty by done.
    destruct (decide (h ∈ arr)) as [Hin|Hnot].
    + by rewrite decide_True.
    + rewrite decide_False; [reflexivity|]. by intros [? _].
Qed.

Lemma ones_replicate (vs : list float) :
  Forall (fun v => v = 1) vs → vs = replicate (length vs) 1.
Proof. induction 1 as [|v vs -> _ IH]; [reflexivity|]. cbn. by f_equal. Qed.

(** X9. The structuring phase gives every hypothesis listed in
    [lrs_array] the placeholder LR 1, however often the hypothesis is
    listed, except a hypothesis called ["__proto__"], and no other
    hypothesis an entry.  A report left with these placeholders (the
    scoring phase failed or returned nothing) is neutral: for a hypothesis
    whose id does not name a member of [Object.prototype], [rawScore] is 1
    and the score [chatWithAnalyst] computes, if any, is 1. *)
Theorem X9_placeholders_are_neutral :
  (∀ (arr : list string) h,
     placeholder_lrs (Some arr) !! h
     = if decide (h ∈ arr ∧ h ≠ "__proto__") then Some 1 else None) ∧
  (∀ h, placeholder_lrs None !! h = None) ∧
  (∀ (arrays : list (option (list string))) h,
     inherited h = false →
     rawScore (map placeholder_lrs arrays) h = 1 ∧
     ∀ s, combine (map placeholder_lrs arrays) !! h = Some s → s = 1).
Proof.
  split; [exact placeholder_lrs_lookup|]. split; [intros h; apply lookup_empty|].
  intros arrays h Hh.
  assert (Hent : Forall (fun v => v = 1) (entries h (map placeholder_lrs arrays))).
  { apply Forall_forall. intros v Hv. unfold entries in Hv.
    apply list_elem_of_omap in Hv as (m & Hm & Hv).
    apply list_elem_of_fmap in Hm as ([arr|] & -> & _).
    - rewrite placeholder_lrs_lookup in Hv. destruct (decide _); congruence.
    - unfold placeholder_lrs in Hv. by rewrite lookup_empty in Hv. }
  apply ones_replicate in Hent.
  split.
  - unfold rawScore. rewrite fold_rawScore; [|done|].
    + rewrite Hent. apply product_ones.
    + rewrite Hent. eapply running_truthy, running_ones.
  - intros s. rewrite combine_lookup by done.
    rewrite next_score_product by (rewrite Hent; apply running_ones).
    rewrite Hent.
    destruct (length (entries h (map placeholder_lrs arrays))) as [|n];
      [discriminate|].
    cbn [replicate]. intros [= <-].
    apply (product_ones (S n)).
Qed.

End Combiner64Facts.

(** * Further properties of the Cluster Scorer *)

Section ScorerMore.

Import Scorer.
Local Open Scope Q_scope.

Implicit Types (analysisData : list Judgment) (i j : nat).

Lemma processBayesianConfirmation_Forall2 analysisData :
  ∃ rs,
    processBayesianConfirmation analysisData = Some rs ∧
    length rs = length analysisData ∧
    Forall2 (fun item r => ∃ i, scored analysisData i item r) analysisData rs.
Proof.
  destruct (processBayesianConfirmation_scored analysisData)
    as (rs & Hrs & Hlen & Hsc).
  exists rs. repeat split; [exact Hrs|exact Hlen|].
  apply Forall2_same_length_lookup_2; [done|].
  intros i item r Hi Hr.
  destruct (Hsc i r Hr) as (item' & Hi' & Hs). exists i. congruence.
Qed.

(** X1. The output is aligned with the input: the records carry the
    hypothesis ids of the judgments in the same order, and each record's
    likelihood is the judgment's [U_i] unchanged. *)
Theorem X1_output_aligned_with_input analysisData :
  ∃ rs,
    processBayesianConfirmation analysisData = Some rs ∧
    map res_hypothesis_id rs = map hypothesis_id analysisData ∧
    map likelihood_P_E_H rs = map U_i analysisData.
Proof.
  destruct (processBayesianConfirmation_Forall2 analysisData)
    as (rs & Hrs & _ & Hall).
  exists rs. split; [exact Hrs|].
  assert (Hfields : Forall2 (fun item r =>
                               res_hypothesis_id r = hypothesis_id item ∧
                               likelihood_P_E_H r = U_i item)
                            analysisData rs).
  { eapply Forall2_impl; [exact Hall|]. cbn.
    by intros item r (i & Hid & _ & Hu & _). }
  clear Hall Hrs.
  induction Hfields as [|item r l k [Hid Hu] _ [IH1 IH2]]; [done|].
  cbn [map]. by rewrite Hid, Hu, IH1, IH2.
Qed.

(** ** The direction of the ratio *)

Lemma clamp_cases (x : Q) :
  (x <= 1 # 1000 ∧ clamp x == 1 # 1000) ∨
  (1 # 1000 <= x ∧ x <= 1000 ∧ clamp x == x) ∨
  (1000 <= x ∧ clamp x == 1000).
Proof.
  unfold clamp.
  destruct (Q.max_spec x (1 # 1000)) as [[H1 E1]|[H1 E1]];
    destruct (Q.min_spec (Qmax x (1 # 1000)) 1000) as [[H2 E2]|[H2 E2]];
    lra.
Qed.

Lemma scored_unique analysisData rs i r :
  processBayesianConfirmation analysisData = Some rs →
  rs !! i = Some r →
  ∃ item, analysisData !! i = Some item ∧ scored analysisData i item r.
Proof.
  intros Hrs Hr.
  destruct (processBayesianConfirmation_scored analysisData)
    as (rs' & Hrs' & _ & Hsc).
  rewrite Hrs in Hrs'. injection Hrs' as <-. by apply Hsc.
Qed.

(** X3. On the non-degenerate path with a positive catch-all likelihood,
    the emitted LR is above 1 exactly when the hypothesis's own likelihood
    is above the catch-all, below 1 exactly when it is below, and 1
    exactly when the two are equal: clamping never changes the side of 1
    the ratio is on. *)
Theorem X3_LR_direction analysisData rs i r :
  processBayesianConfirmation analysisData = Some rs →
  rs !! i = Some r →
  ¬ 1 - prior_P_H r <= 1 # 10000 →
  0 < catchall_P_E_NotH r →
  (1 < LR r ↔ catchall_P_E_NotH r < likelihood_P_E_H r) ∧
  (LR r < 1 ↔ likelihood_P_E_H r < catchall_P_E_NotH r) ∧
  (LR r == 1 ↔ likelihood_P_E_H r == catchall_P_E_NotH r).
Proof.
  intros Hrs Hr Hnd Hpos.
  destruct (scored_unique _ _ _ _ Hrs Hr) as (item & _ & _ & _ & Hu & Hcases).
  destruct Hcases as [(Hle & _)|(_ & acc & _ & Hc & Hl)]; [contradiction|].
  rewrite Hc in Hpos |- *. rewrite Hl, Hu. clear Hc Hl Hu.
  assert (E : Qeq_bool acc 0 = false).
  { destruct (Qeq_bool acc 0) eqn:E; [|reflexivity].
    apply Qeq_bool_iff in E. lra. }
  rewrite E.
  set (x := U_i item / acc).
  assert (Hx : U_i item == x * acc) by (unfold x; field; lra).
  assert (H1 : 1 < x ↔ acc < U_i item).
  { rewrite Hx. split; intros H; nra. }
  assert (H2 : x < 1 ↔ U_i item < acc).
  { rewrite Hx. split; intros H; nra. }
  assert (H3 : x == 1 ↔ U_i item == acc).
  { rewrite Hx. split; intros H; nra. }
  rewrite <- H1, <- H2, <- H3.
  destruct (clamp_cases x) as [[Ha ->]|[(Ha & Hb & ->)|[Ha ->]]];
    repeat split; intros; lra.
Qed.

Lemma X3_witness :
  (1 < 15 # 3 ↔ 3 # 3 < 5) ∧ (15 # 3 < 1 ↔ 5 < 3 # 3) ∧
  (15 # 3 == 1 ↔ 5 == 3 # 3).
Proof.
  apply (X3_LR_direction
           [mkJudgment "H1" 2 5; mkJudgment "H2" 1 1]
           [mkResult "H1" (2 # 3) 5 (3 # 3) (15 # 3);
            mkResult "H2" (1 # 3) 1 (30 # 6) (6 # 30)]
           0 (mkResult "H1" (2 # 3) 5 (3 # 3) (15 # 3))).
  - vm_compute. reflexivity.
  - reflexivity.
  - vm_compute. intros H. apply H. reflexivity.
  - reflexivity.
Defined.

End ScorerMore.

(** * The scoring phase of [analyzeTopic] *)

Section ReportFacts.

Import Scorer Report.
Local Open Scope Q_scope.

Implicit Types (cluster : EvidenceCluster) (rs : list CalculationResult)
               (h : string).

(** ** Recording the results in a cluster *)

Lemma fold_record_fields rs cluster :
  cluster_id (fold_left record_result rs cluster) = cluster_id cluster ∧
  name (fold_left record_result rs cluster) = name cluster ∧
  description (fold_left record_result rs cluster) = description cluster ∧
  items (fold_left record_result rs cluster) = items cluster.
Proof.
  revert cluster. induction rs as [|r rs IH]; intros cluster; [done|].
  cbn [fold_left]. destruct (IH (record_result cluster r)) as (-> & -> & -> & ->).
  done.
Qed.




Lemma record_result_agree cluster r :
  stats_agree cluster → stats_agree (record_result cluster r).
Proof.
  intros (st & Hst & Hall). unfold record_result. rewrite Hst.
  eexists. split; [reflexivity|]. cbn. intros h s Hs.
  destruct (decide (res_hypothesis_id r = h)) as [<-|Hne].
  - rewrite js_set_lookup in Hs. rewrite js_set_lookup.
    destruct (String.eqb (res_hypothesis_id r) "__proto__").
    + destruct (st !! res_hypothesis_id r) as [s0|] eqn:Hs0; [|discriminate].
      injection Hs as <-. destruct (Hall _ _ Hs0) as [_ ->]. by split.
    + injection Hs as <-. by split.
  - rewrite js_set_lookup_ne in Hs by done.
    rewrite js_set_lookup_ne by done. by apply Hall.
Qed.

Lemma fold_record_agree rs cluster :
  stats_agree cluster → stats_agree (fold_left record_result rs cluster).
Proof.
  revert cluster. induction rs as [|r rs IH]; intros cluster H; [exact H|].
  cbn [fold_left]. by apply IH, record_result_agree.
Qed.

Lemma fold_record_stats_dom rs cluster st :
  stats cluster = Some st →
  ∃ st', stats (fold_left record_result rs cluster) = Some st' ∧
         ∀ h, is_Some (st' !! h)
              ↔ is_Some (st !! h)
                ∨ (h ∈ map res_hypothesis_id rs ∧ h ≠ "__proto__").
Proof.
  revert cluster st. induction rs as [|r rs IH]; intros cluster st Hst.
  - exists st. split; [exact Hst|]. intros h. split; [by left|].
    intros [H|[H _]]; [exact H|]. by apply elem_of_nil in H.
  - cbn [fold_left map].
    destruct (IH (record_result cluster r)
                 (JsObject.set st (res_hypothesis_id r)
                    (mkStats (res_hypothesis_id r) (prior_P_H r)
                             (likelihood_P_E_H r) (catchall_P_E_NotH r)
                             (LR r)))) as (st' & Hst' & Hdom).
    { unfold record_result. by rewrite Hst. }
    exists st'. split; [exact Hst'|]. intros h.
    rewrite Hdom, js_set_is_Some, elem_of_cons. split.
    + intros [[H|[<- H]]|[H1 H2]]; [by left|right|right].
      * split; [by left|done].
      * split; [by right|done].
    + intros [H|[[->|H1] H2]]; [by left; left|left; right|right]; by split.
Qed.

(** ** One cluster *)

Lemma results_ids_range (a : list Judgment) :
  ∃ rs,
    processBayesianConfirmation a = Some rs ∧
    map res_hypothesis_id rs = map hypothesis_id a ∧
    Forall (fun r => 1 # 1000 <= LR r ∧ LR r <= 1000) rs.
Proof.
  destruct (processBayesianConfirmation_Forall2 a) as (rs & Hrs & _ & Hall).
  exists rs. split; [exact Hrs|]. split.
  - assert (Hids : Forall2 (fun item r => res_hypothesis_id r = hypothesis_id item)
                           a rs).
    { eapply Forall2_impl; [exact Hall|]. cbn. by intros item r (i & Hid & _). }
    clear Hall Hrs.
    induction Hids as [|item r l k Hid _ IH]; [done|].
    cbn [map]. by rewrite Hid, IH.
  - eapply Forall2_Forall_r; [exact Hall|].
    apply Forall_forall. intros item _ r (i & Hs). by eapply scored_LR_range.
Qed.

Lemma score_cluster_unfold (clusters : list ClusterAnalysis) cluster
    (clusterAnalysis : ClusterAnalysis) (a : list Judgment) :
  List.find (fun c => String.eqb (analysis_cluster_id c) (cluster_id cluster))
            clusters = Some clusterAnalysis →
  analysis clusterAnalysis = Some a →
  ∃ rs,
    processBayesianConfirmation a = Some rs ∧
    map res_hypothesis_id rs = map hypothesis_id a ∧
    Forall (fun r => 1 # 1000 <= LR r ∧ LR r <= 1000) rs ∧
    score_cluster clusters cluster
    = Some (inherit_lrs (fold_left record_result rs (init_stats cluster))).
Proof.
  intros Hfind Ha. destruct (results_ids_range a) as (rs & Hrs & Hids & Hrange).
  exists rs. repeat split; try done.
  unfold score_cluster. rewrite Hfind, Ha, Hrs. reflexivity.
Qed.



(** X5. After a cluster is scored, its stats table is set and holds an
    entry exactly for the hypotheses the analysis names, except one called
    ["__proto__"]; every entry is filed under its own [h_id] and its [lr]
    is the LR the cluster holds for that hypothesis, also when the analysis
    names a hypothesis twice. *)
Theorem X5_stats_agree_with_lrs (clusters : list ClusterAnalysis) cluster
    (clusterAnalysis : ClusterAnalysis) (a : list Judgment) :
  List.find (fun c => String.eqb (analysis_cluster_id c) (cluster_id cluster))
            clusters = Some clusterAnalysis →
  analysis clusterAnalysis = Some a →
  ∃ cluster' st,
    score_cluster clusters cluster = Some cluster' ∧
    stats cluster' = Some st ∧
    (∀ h, is_Some (st !! h) ↔ h ∈ map hypothesis_id a ∧ h ≠ "__proto__") ∧
    (∀ h s, st !! h = Some s →
            h_id s = h ∧ lrs cluster' !! h = Some (lr s)).
Proof.
  intros Hfind Ha.
  destruct (score_cluster_unfold _ _ _ _ Hfind Ha)
    as (rs & _ & Hids & _ & Hscore).
  destruct (fold_record_stats_dom rs (init_stats cluster) ∅ eq_refl)
    as (st & Hst & Hdom).
  destruct (fold_record_agree rs (init_stats cluster)) as (st' & Hst' & Hagree).
  { exists ∅. split; [reflexivity|]. intros h s Hs.
    by rewrite lookup_empty in Hs. }
  rewrite Hst in Hst'. injection Hst' as <-.
  eexists _, st. split; [exact Hscore|].
  cbn [inherit_lrs stats lrs]. split; [exact Hst|]. split; [|exact Hagree].
  intros h. rewrite Hdom, lookup_empty, Hids. split; [|by right].
  intros [[? [=]]|H]; exact H.
Qed.

Lemma X5_witness :
  ∃ cluster' st,
    score_cluster
      [mkAnalysis "c1" (Some [mkJudgment "H1" 2 5; mkJudgment "H1" 1 1])]
      (mkCluster "c1" "Prices" "" {[ "H1" := 1 ]} None [])
    = Some cluster' ∧
    stats cluster' = Some st ∧
    (∀ h, is_Some (st !! h)
          ↔ h ∈ map hypothesis_id [mkJudgment "H1" 2 5; mkJudgment "H1" 1 1]
            ∧ h ≠ "__proto__") ∧
    (∀ h s, st !! h = Some s →
            h_id s = h ∧ lrs cluster' !! h = Some (lr s)).
Proof.
  exact (X5_stats_agree_with_lrs
           [mkAnalysis "c1" (Some [mkJudgment "H1" 2 5; mkJudgment "H1" 1 1])]
           (mkCluster "c1" "Prices" "" {[ "H1" := 1 ]} None [])
           (mkAnalysis "c1" (Some [mkJudgment "H1" 2 5; mkJudgment "H1" 1 1]))
           [mkJudgment "H1" 2 5; mkJudgment "H1" 1 1] eq_refl eq_refl).
Defined.

(** X6. After a cluster is scored, every evidence item of the cluster
    holds the cluster's LR mapping, and the items are otherwise the same
    items in the same order. *)
Theorem X6_items_inherit_cluster_lrs (clusters : list ClusterAnalysis) cluster
    (clusterAnalysis : ClusterAnalysis) (a : list Judgment) :
  List.find (fun c => String.eqb (analysis_cluster_id c) (cluster_id cluster))
            clusters = Some clusterAnalysis →
  analysis clusterAnalysis = Some a →
  ∃ cluster',
    score_cluster clusters cluster = Some cluster' ∧
    Forall2 (fun old new =>
               item_lrs new = lrs cluster' ∧
               item_id new = item_id old ∧
               item_description new = item_description old ∧
               source new = source old ∧ url new = url old ∧
               explanation new = explanation old)
            (items cluster) (items cluster').
Proof.
  intros Hfind Ha.
  destruct (score_cluster_unfold _ _ _ _ Hfind Ha) as (rs & _ & _ & _ & Hscore).
  eexists. split; [exact Hscore|].
  destruct (fold_record_fields rs (init_stats cluster)) as (_ & _ & _ & Hitems).
  cbn [inherit_lrs items lrs]. rewrite Hitems. cbn [init_stats items].
  generalize (lrs (fold_left record_result rs (init_stats cluster))) as m.
  intros m. induction (items cluster) as [|item l IH]; constructor; [|exact IH].
  done.
Qed.

Lemma X6_witness :
  ∃ cluster',
    score_cluster
      [mkAnalysis "c1" (Some [mkJudgment "H1" 2 5; mkJudgment "H2" 1 1])]
      (mkCluster "c1" "Prices" "" {[ "H1" := 1; "H2" := 1 ]} None
                 [mkEvidence "e1" "CPI release" "BLS" None ∅ "monthly data"])
    = Some cluster' ∧
    Forall2 (fun old new =>
               item_lrs new = lrs cluster' ∧
               item_id new = item_id old ∧
               item_description new = item_description old ∧
               source new = source old ∧ url new = url old ∧
               explanation new = explanation old)
            [mkEvidence "e1" "CPI release" "BLS" None ∅ "monthly data"]
            (items cluster').
Proof.
  exact (X6_items_inherit_cluster_lrs
           [mkAnalysis "c1" (Some [mkJudgment "H1" 2 5; mkJudgment "H2" 1 1])]
           (mkCluster "c1" "Prices" "" {[ "H1" := 1; "H2" := 1 ]} None
                      [mkEvidence "e1" "CPI release" "BLS" None ∅ "monthly data"])
           (mkAnalysis "c1" (Some [mkJudgment "H1" 2 5; mkJudgment "H2" 1 1]))
           [mkJudgment "H1" 2 5; mkJudgment "H2" 1 1] eq_refl eq_refl).
Defined.

(** ** The whole phase *)






End ReportFacts.

(** * [generateWithRetry] *)

Section RetryFacts.

Import Retry.
Local Open Scope Z_scope.

Context {A : Type}.
Implicit Types (callFn : nat → ApiError + A) (k retries n : nat) (delay : Z).

Lemma backoff_S delay n : backoff delay (S n) = delay :: backoff (delay * 2) n.
Proof.
  unfold backoff. cbn [seq map]. f_equal.
  - rewrite Z.pow_0_r. lia.
  - rewrite <- seq_shift, map_map. apply map_ext. intros j.
    rewrite Nat2Z.inj_succ, Z.pow_succ_r by lia. lia.
Qed.

Lemma backoff_sum delay n :
  fold_right Z.add 0 (backoff delay n) = delay * (2 ^ Z.of_nat n - 1).
Proof.
  revert delay. induction n as [|n IH]; intros delay.
  - cbn. lia.
  - rewrite backoff_S. cbn [fold_right]. rewrite IH.
    rewrite Nat2Z.inj_succ, Z.pow_succ_r by lia. lia.
Qed.

(** The loop run from its outcome: it made [n + 1] calls with [n] at most
    [retries], awaited the [n] first back-off delays, every call but the
    last was rejected with a retryable error, and the last one ended the
    loop. *)
Lemma generateWithRetry_run callFn k retries delay :
  ∃ n,
    (n <= retries)%nat ∧
    generateWithRetry callFn k retries delay
    = (callFn (k + n)%nat, backoff delay n) ∧
    (∀ j, (j < n)%nat →
          ∃ e, callFn (k + j)%nat = inl e ∧ isRetryable e = true) ∧
    (∀ e, callFn (k + n)%nat = inl e → isRetryable e = false ∨ n = retries).
Proof.
  revert k delay. induction retries as [|retries IH]; intros k delay.
  - exists 0%nat. rewrite Nat.add_0_r. cbn [generateWithRetry].
    split; [lia|]. split; [by destruct (callFn k)|].
    split; [intros j Hj; lia|]. intros e _. by right.
  - cbn [generateWithRetry].
    destruct (callFn k) as [e|v] eqn:Hk.
    2:{ exists 0%nat. rewrite Nat.add_0_r, Hk. split; [lia|]. split; [done|].
        split; [intros j Hj; lia|]. intros e [=]. }
    destruct (isRetryable e) eqn:He.
    2:{ exists 0%nat. rewrite Nat.add_0_r, Hk. split; [lia|]. split; [done|].
        split; [intros j Hj; lia|]. intros e' [= <-]. by left. }
    destruct (IH (S k) (delay * 2)) as (n & Hn & Hrun & Hbefore & Hlast).
    exists (S n). replace (k + S n)%nat with (S k + n)%nat by lia.
    rewrite Hrun, backoff_S. split; [lia|]. split; [done|]. split.
    + intros [|j] Hj.
      * rewrite Nat.add_0_r. by exists e.
      * replace (k + S j)%nat with (S k + j)%nat by lia. apply Hbefore. lia.
    + intros e' He'. destruct (Hlast e' He') as [Hf| ->]; [by left|by right].
Qed.

(** X10. [generateWithRetry] makes at most [retries + 1] calls and awaits
    the delays [delay], [2 * delay], [4 * delay], ... between them, whose
    sum is [delay * (2^n - 1)] for [n] retries; with the defaults (3
    retries, 2000 ms) that is at most 4 calls and at most 14000 ms of
    waiting. *)
Theorem X10_retry_budget callFn k retries delay :
  (∃ n, (n <= retries)%nat ∧
        snd (generateWithRetry callFn k retries delay) = backoff delay n ∧
        fold_right Z.add 0 (snd (generateWithRetry callFn k retries delay))
        = delay * (2 ^ Z.of_nat n - 1)) ∧
  (length (snd (generateWithRetry callFn k 3 2000)) <= 3)%nat ∧
  fold_right Z.add 0 (snd (generateWithRetry callFn k 3 2000)) <= 14000.
Proof.
  split.
  - destruct (generateWithRetry_run callFn k retries delay)
      as (n & Hn & Hrun & _).
    exists n. rewrite Hrun. cbn [snd]. split; [exact Hn|]. split; [done|].
    apply backoff_sum.
  - destruct (generateWithRetry_run callFn k 3 2000) as (n & Hn & Hrun & _).
    rewrite Hrun. cbn [snd]. rewrite backoff_sum. unfold backoff.
    rewrite length_map, length_seq. split; [exact Hn|].
    assert (2 ^ Z.of_nat n <= 2 ^ 3) by (apply Z.pow_le_mono_r; lia). lia.
Qed.

(** X11. Whatever [generateWithRetry] returns is the outcome of the last
    call it made; every earlier call was rejected with a retryable error;
    and when it rethrows an error, the error is not retryable or the
    retries are used up. *)
Theorem X11_retry_outcome callFn k retries delay :
  ∃ n,
    (n <= retries)%nat ∧
    length (snd (generateWithRetry callFn k retries delay)) = n ∧
    fst (generateWithRetry callFn k retries delay) = callFn (k + n)%nat ∧
    (∀ j, (j < n)%nat →
          ∃ e, callFn (k + j)%nat = inl e ∧ isRetryable e = true) ∧
    (∀ e, fst (generateWithRetry callFn k retries delay) = inl e →
          isRetryable e = false ∨ n = retries).
Proof.
  destruct (generateWithRetry_run callFn k retries delay)
    as (n & Hn & Hrun & Hbefore & Hlast).
  exists n. rewrite Hrun. cbn [fst snd]. unfold backoff.
  rewrite length_map, length_seq. done.
Qed.

(** X12. If the calls number [0] to [n - 1] are rejected with retryable
    errors, [n] is at most [retries], and call number [n] resolves, or is
    rejected with an error that is not retryable, or [n] is [retries], then
    [generateWithRetry] returns the outcome of call [n] after awaiting the
    first [n] back-off delays: it returns the first success, rethrows a
    non-retryable error at once, and gives up after [retries] retries. *)
Theorem X12_retry_stops_at callFn k retries delay n :
  (n <= retries)%nat →
  (∀ j, (j < n)%nat → ∃ e, callFn (k + j)%nat = inl e ∧ isRetryable e = true) →
  ((∃ v, callFn (k + n)%nat = inr v) ∨
   (∃ e, callFn (k + n)%nat = inl e ∧ isRetryable e = false) ∨
   n = retries) →
  generateWithRetry callFn k retries delay
  = (callFn (k + n)%nat, backoff delay n).
Proof.
  intros Hn Hbefore Hstop.
  destruct (generateWithRetry_run callFn k retries delay)
    as (m & Hm & Hrun & Hbefore' & Hlast).
  rewrite Hrun. destruct (Nat.lt_trichotomy m n) as [Hlt|[->|Hgt]]; [|done|].
  - exfalso. destruct (Hbefore m Hlt) as (e & He & Hr).
    destruct (Hlast e He) as [Hf| ->]; [congruence|lia].
  - exfalso. destruct (Hbefore' n Hgt) as (e & He & Hr).
    destruct Hstop as [(v & Hv)|[(e' & He' & Hr')| ->]]; [congruence| |lia].
    rewrite He in He'. injection He' as <-. congruence.
Qed.

End RetryFacts.

Lemma X12_witness :
  Retry.generateWithRetry
    (fun k => match k with
              | 0%nat => inl (Retry.mkError (Some 429%Z) None)
              | 1%nat => inl (Retry.mkError None (Some "Error 503: overloaded"))
              | _ => inr "ok"
              end) 0 3 2000
  = (inr "ok", Retry.backoff 2000 2).
Proof.
  apply (X12_retry_stops_at
           (fun k => match k with
                     | 0%nat => inl (Retry.mkError (Some 429%Z) None)
                     | 1%nat => inl (Retry.mkError None
                                                   (Some "Error 503: overloaded"))
                     | _ => inr "ok"
                     end) 0 3 2000 2).
  - lia.
  - intros [|[|j]] Hj; [by eexists..|lia].
  - left. by eexists.
Defined.

(** * The evidence matrix *)

Section MatrixFacts.

Import Matrix.
Local Open Scope Q_scope.

Lemma or_1_Some (v : Q) : ¬ v == 0 → Combiner.or_1 (Some v) = v.
Proof.
  intros Hv. cbn. destruct (Qeq_bool v 0) eqn:E; [|reflexivity].
  apply Qeq_bool_iff in E. contradiction.
Qed.

Lemma Qle_bool_false (a b : Q) : Qle_bool a b = false → b < a.
Proof.
  intros H. apply Qnot_le_lt. intros Hle. apply Qle_bool_iff in Hle. congruence.
Qed.

Ltac band_cases :=
  repeat match goal with
         | |- context [Qle_bool ?a ?b] =>
             let E := fresh "E" in
             destruct (Qle_bool a b) eqn:E;
             [apply Qle_bool_iff in E | apply Qle_bool_false in E]
         end.

(** X13. The labels respect the order of the LR values: a larger LR never
    gets a label further towards refutation ([--] < [-] < [0] < [+] < [++]). *)
Theorem X13_label_monotone (lr lr' : Q) :
  lr <= lr' →
  (label_rank (getLRLabel lr) <= label_rank (getLRLabel lr'))%Z.
Proof.
  intros Hle. unfold getLRLabel. band_cases; cbn; lra || lia.
Qed.

Lemma X13_witness :
  (label_rank (getLRLabel (1 # 5)) <= label_rank (getLRLabel 5))%Z.
Proof. apply (X13_label_monotone (1 # 5) 5). discriminate. Defined.

(** X14. The bands are symmetric on the ratio scale: for a positive LR,
    the label of [1 / lr] is the mirror image of the label of [lr]
    ([++] and [--], [+] and [-] swap, [0] stays). *)
Theorem X14_label_reciprocal (lr : Q) :
  0 < lr →
  label_rank (getLRLabel (/ lr)) = (- label_rank (getLRLabel lr))%Z.
Proof.
  intros Hpos.
  assert (Hx : lr * / lr == 1) by (field; lra).
  pose proof (Qinv_lt_0_compat lr Hpos) as Hx0.
  revert Hx Hx0. generalize (/ lr) as x. intros x Hx Hx0.
  unfold getLRLabel. band_cases; cbn; try reflexivity; exfalso; nra.
Qed.

Lemma X14_witness :
  label_rank (getLRLabel (/ 4)) = (- label_rank (getLRLabel 4))%Z.
Proof. apply (X14_label_reciprocal 4). reflexivity. Defined.

(** X15. The colour and the label of a cell always show the same band. *)
Theorem X15_colour_matches_label (lr : Q) :
  (getLRLabel lr = "++"
   ↔ getLRColor lr = "bg-emerald-500 text-emerald-950 font-bold") ∧
  (getLRLabel lr = "+" ↔ getLRColor lr = "bg-emerald-500/50 text-emerald-100") ∧
  (getLRLabel lr = "--" ↔ getLRColor lr = "bg-red-500 text-red-950 font-bold") ∧
  (getLRLabel lr = "-" ↔ getLRColor lr = "bg-red-500/50 text-red-100") ∧
  (getLRLabel lr = "0" ↔ getLRColor lr = "bg-slate-700 text-slate-400").
Proof.
  unfold getLRLabel, getLRColor.
  destruct (Qle_bool 10 lr); [by repeat split|].
  destruct (Qle_bool 2 lr); [by repeat split|].
  destruct (Qle_bool lr (1 # 10)); [by repeat split|].
  destruct (Qle_bool lr (1 # 2)); by repeat split.
Qed.

(** X16. A cell whose cluster has no entry for the hypothesis shows the
    neutral label [0], and so does a cell whose entry is zero, which
    [|| 1] replaces by 1 although [getLRLabel] would label a zero [--];
    every other entry is labelled by its value. *)
Theorem X16_cell_label_default (lrs : gmap string Q) (h : string) :
  (lrs !! h = None → cell_label lrs h = "0") ∧
  (∀ v, lrs !! h = Some v → v == 0 →
        cell_label lrs h = "0" ∧ getLRLabel v = "--") ∧
  (∀ v, lrs !! h = Some v → ¬ v == 0 → cell_label lrs h = getLRLabel v).
Proof.
  unfold cell_label. split; [|split].
  - by intros ->.
  - intros v -> Hv. split.
    + cbn. apply Qeq_bool_iff in Hv. by rewrite Hv.
    + unfold getLRLabel. band_cases; try reflexivity; lra.
  - intros v -> Hv. by rewrite or_1_Some.
Qed.

(** X17. The tooltip and the label never contradict each other: a cell
    labelled [+] or [++] reads "Supports", a cell labelled [-] or [--]
    reads "Refutes", and the tooltip reads "Neutral" exactly when the LR
    is 1. *)
Theorem X17_tooltip_matches_label (lr : Q) :
  ((1 <= label_rank (getLRLabel lr))%Z → supportText lr = "Supports") ∧
  ((label_rank (getLRLabel lr) <= -1)%Z → supportText lr = "Refutes") ∧
  (supportText lr = "Neutral" ↔ lr == 1).
Proof.
  unfold getLRLabel, supportText.
  band_cases; cbn; repeat split; intros; try done; try lia; lra.
Qed.

(** ** Expanding and collapsing clusters *)

(** X18. Toggling a cluster flips whether it is expanded and leaves every
    other cluster as it was; toggling it twice restores the set. *)
Theorem X18_toggle_cluster (expandedClusters : gset string) (id : string) :
  (id ∈ toggleCluster expandedClusters id ↔ id ∉ expandedClusters) ∧
  (∀ other, other ≠ id →
     (other ∈ toggleCluster expandedClusters id ↔ other ∈ expandedClusters)) ∧
  toggleCluster (toggleCluster expandedClusters id) id = expandedClusters.
Proof.
  unfold toggleCluster. destruct (decide (id ∈ expandedClusters)) as [Hin|Hnot].
  - split; [|split].
    + rewrite elem_of_difference, elem_of_singleton. tauto.
    + intros other Hne. rewrite elem_of_difference, elem_of_singleton. tauto.
    + rewrite decide_False.
      * apply set_eq. intros x.
        rewrite elem_of_union, elem_of_difference, elem_of_singleton.
        destruct (decide (x = id)) as [->|Hne]; tauto.
      * rewrite elem_of_difference, elem_of_singleton. tauto.
  - split; [|split].
    + rewrite elem_of_union, elem_of_singleton. tauto.
    + intros other Hne. rewrite elem_of_union, elem_of_singleton. tauto.
    + rewrite decide_True.
      * apply set_eq. intros x.
        rewrite elem_of_difference, elem_of_union, elem_of_singleton.
        destruct (decide (x = id)) as [->|Hne]; tauto.
      * rewrite elem_of_union, elem_of_singleton. tauto.
Qed.

End MatrixFacts.

(** * The history of analyses *)

Section HistoryFacts.

Import History.
Context {R : Type}.

Lemma take_app_take (n : nat) (l k : list R) :
  take n (l ++ take n k) = take n (l ++ k).
Proof.
  rewrite !take_app, take_take. do 2 f_equal. lia.
Qed.

Lemma fold_push_history (results prev : list R) :
  results ≠ [] →
  fold_left push_history results prev = take 10 (rev results ++ prev).
Proof.
  revert prev. induction results as [|r results IH]; intros prev Hne; [done|].
  cbn [fold_left rev]. destruct results as [|r' results].
  - reflexivity.
  - rewrite IH by done. unfold push_history.
    rewrite take_app_take, <- app_assoc. reflexivity.
Qed.

(** X19. After a non-empty sequence of analyses the history holds the
    most recent results, newest first, followed by the earlier history,
    cut to ten entries; it never holds more than ten. *)
Theorem X19_history_keeps_last_ten (results prev : list R) :
  results ≠ [] →
  fold_left push_history results prev = take 10 (rev results ++ prev) ∧
  length (fold_left push_history results prev) <= 10.
Proof.
  intros Hne. rewrite (fold_push_history _ _ Hne). split; [reflexivity|].
  rewrite length_take. lia.
Qed.

End HistoryFacts.

Lemma X19_witness :
  fold_left History.push_history (seq 1 12) [0%nat]
  = take 10 (rev (seq 1 12) ++ [0%nat]) ∧
  length (fold_left History.push_history (seq 1 12) [0%nat]) <= 10.
Proof.
  apply (X19_history_keeps_last_ten (seq 1 12) [0%nat]). discriminate.
Defined.

(** * [migrateHistory] *)

Section MigrationFacts.

Import Report Migration.
Local Open Scope Q_scope.
Context {O : Type}.

Lemma migrate_migrate (item : StoredReport O) : migrate (migrate item) = migrate item.
Proof. reflexivity. Qed.

(** X20. Migrating a stored history is idempotent and keeps its length;
    every migrated report has clusters and a rubric; the clusters and the
    rubric a report already had, its legacy evidence matrix and all its
    other fields are kept as they are. *)
Theorem X20_migrateHistory_idempotent (data : list (StoredReport O)) :
  migrateHistory (migrateHistory data) = migrateHistory data ∧
  length (migrateHistory data) = length data ∧
  Forall (fun item => is_Some (evidence_clusters item) ∧
                      is_Some (rubric_assessment item))
         (migrateHistory data) ∧
  Forall2 (fun old new =>
             other new = other old ∧
             evidence_matrix new = evidence_matrix old ∧
             (∀ cs, evidence_clusters old = Some cs →
                    evidence_clusters new = Some cs) ∧
             (∀ r, rubric_assessment old = Some r →
                   rubric_assessment new = Some r))
          data (migrateHistory data).
Proof.
  unfold migrateHistory. split; [|split; [|split]].
  - rewrite map_map. apply map_ext. intros item. apply migrate_migrate.
  - apply length_map.
  - induction data as [|item data IH]; constructor; [|exact IH].
    split; by eexists.
  - induction data as [|item data IH]; constructor; [|exact IH].
    repeat split.
    + intros cs Hcs. cbn. by rewrite Hcs.
    + intros r Hr. cbn. by rewrite Hr.
Qed.

(** X21. A legacy report (one stored without clusters) is given a single
    cluster that holds the items of its evidence matrix, no LR value and no
    stats table, so the evidence matrix shows the neutral label [0] for
    every hypothesis. *)
Theorem X21_legacy_report_is_neutral (item : StoredReport O) :
  evidence_clusters item = None →
  ∃ c,
    evidence_clusters (migrate item) = Some [c] ∧
    items c = default [] (evidence_matrix item) ∧
    lrs c = ∅ ∧ stats c = None ∧
    ∀ h, Matrix.cell_label (lrs c) h = "0".
Proof.
  intros Hnone. unfold migrate. rewrite Hnone. eexists. split; [reflexivity|].
  cbn [items lrs stats]. repeat split.
Qed.

End MigrationFacts.

Lemma X21_witness :
  ∃ c,
    Migration.evidence_clusters
      (Migration.migrate
         (Migration.mkStored None
            (Some [Report.mkEvidence "e1" "CPI release" "BLS" None ∅ ""])
            None "topic"))
    = Some [c] ∧
    Report.items c
    = default [] (Some [Report.mkEvidence "e1" "CPI release" "BLS" None ∅ ""]) ∧
    Report.lrs c = ∅ ∧ Report.stats c = None ∧
    ∀ h, Matrix.cell_label (Report.lrs c) h = "0".
Proof.
  apply (X21_legacy_report_is_neutral
           (Migration.mkStored None
              (Some [Report.mkEvidence "e1" "CPI release" "BLS" None ∅ ""])
              None "topic")).
  reflexivity.
Defined.

(** * The page cursor of the PDF export *)

Section PdfFacts.

Import Pdf.
Local Open Scope Q_scope.

Variable pageHeight : Q.

Ltac cursor_cases :=
  repeat match goal with
         | |- context [Qle_bool ?a ?b] =>
             let E := fresh "E" in
             destruct (Qle_bool a b) eqn:E;
             [apply Qle_bool_iff in E | apply Qle_bool_false in E]
         end.

(** X22. On a page at least two margins high, [addVerticalSpace] leaves
    the cursor at or above the bottom margin and adds at most one page;
    after [ensureSpace(mm)], for a block that fits between the margins,
    the block fits between the cursor and the bottom margin. *)
Theorem X22_cursor_stays_in_print_area (mm : Q) (c : Cursor) :
  2 * margin <= pageHeight →
  currentY (addVerticalSpace pageHeight mm c) <= pageHeight - margin ∧
  (pages c <= pages (addVerticalSpace pageHeight mm c) <= S (pages c))%nat ∧
  (mm <= pageHeight - 2 * margin →
   currentY (ensureSpace pageHeight mm c) + mm <= pageHeight - margin) ∧
  (pages c <= pages (ensureSpace pageHeight mm c) <= S (pages c))%nat.
Proof.
  unfold addVerticalSpace, ensureSpace, margin. intros Hh.
  cursor_cases; cbn [negb currentY pages]; repeat split; intros; lra || lia.
Qed.

(** X23. [addText] draws a block that fits between the margins entirely
    above the bottom margin, starting a new page when the block would cross
    it, never draws above the top margin when the cursor was not above it,
    and leaves the cursor 2 below the end of the block. *)
Theorem X23_text_block_stays_in_print_area (lines : nat) (fontSize : Q)
    (c : Cursor) :
  inject_Z (Z.of_nat lines) * (fontSize * (3527 # 10000) * (12 # 10))
  <= pageHeight - 2 * margin →
  currentY (fst (addText pageHeight lines fontSize c))
  + inject_Z (Z.of_nat lines) * (fontSize * (3527 # 10000) * (12 # 10))
  <= pageHeight - margin ∧
  (margin <= currentY c →
   margin <= currentY (fst (addText pageHeight lines fontSize c))) ∧
  currentY (snd (addText pageHeight lines fontSize c))
  == currentY (fst (addText pageHeight lines fontSize c))
     + inject_Z (Z.of_nat lines) * (fontSize * (3527 # 10000) * (12 # 10)) + 2 ∧
  (pages c <= pages (snd (addText pageHeight lines fontSize c)) <= S (pages c))%nat.
Proof.
  unfold addText, margin. cbn zeta.
  generalize (inject_Z (Z.of_nat lines) * (fontSize * (3527 # 10000) * (12 # 10))).
  intros bh Hfit.
  cursor_cases; cbn [negb fst snd currentY pages]; repeat split; intros;
    lra || lia.
Qed.

End PdfFacts.

Lemma X22_witness :
  (Pdf.currentY (Pdf.addVerticalSpace 297 5 (Pdf.mkCursor 275 3)) <= 297 - Pdf.margin)%Q ∧
  (3 <= Pdf.pages (Pdf.addVerticalSpace 297 5 (Pdf.mkCursor 275 3)) <= 4)%nat ∧
  ((5 <= 297 - 2 * Pdf.margin)%Q →
   (Pdf.currentY (Pdf.ensureSpace 297 5 (Pdf.mkCursor 275 3)) + 5
    <= 297 - Pdf.margin)%Q) ∧
  (3 <= Pdf.pages (Pdf.ensureSpace 297 5 (Pdf.mkCursor 275 3)) <= 4)%nat.
Proof.
  apply (X22_cursor_stays_in_print_area 297 5 (Pdf.mkCursor 275 3)).
  discriminate.
Defined.

Lemma X23_witness :
  (Pdf.currentY (fst (Pdf.addText 297 3 12 (Pdf.mkCursor 270 1)))
   + inject_Z (Z.of_nat 3) * (12 * (3527 # 10000) * (12 # 10))
   <= 297 - Pdf.margin)%Q ∧
  ((Pdf.margin <= Pdf.currentY (Pdf.mkCursor 270 1))%Q →
   (Pdf.margin
    <= Pdf.currentY (fst (Pdf.addText 297 3 12 (Pdf.mkCursor 270 1))))%Q) ∧
  (Pdf.currentY (snd (Pdf.addText 297 3 12 (Pdf.mkCursor 270 1)))
   == Pdf.currentY (fst (Pdf.addText 297 3 12 (Pdf.mkCursor 270 1)))
      + inject_Z (Z.of_nat 3) * (12 * (3527 # 10000) * (12 # 10)) + 2)%Q ∧
  (Pdf.pages (Pdf.mkCursor 270 1)
   <= Pdf.pages (snd (Pdf.addText 297 3 12 (Pdf.mkCursor 270 1)))
   <= S (Pdf.pages (Pdf.mkCursor 270 1)))%nat.
Proof.
  apply (X23_text_block_stays_in_print_area 297 3 12 (Pdf.mkCursor 270 1)).
  vm_compute. discriminate.
Defined.

(** * Which errors [generateWithRetry] retries *)

Section RetryableFacts.

Import Retry.

Lemma prefix_app (pat b : string) : String.prefix pat (pat ++ b) = true.
Proof.
  induction pat as [|c pat IH]; simpl; [by destruct b|].
  destruct (Ascii.ascii_dec c c); [exact IH|done].
Qed.

Lemma index_0_cons (pat : string) (c : Ascii.ascii) (s : string) :
  String.index 0 pat (String c s)
  = if String.prefix pat (String c s) then Some 0%nat
    else match String.index 0 pat s with
         | Some n => Some (S n)
         | None => None
         end.
Proof. reflexivity. Qed.

Lemma includes_app (a pat b : string) : includes (a ++ pat ++ b) pat = true.
Proof.
  unfold includes. induction a as [|c a IH].
  - change (String.append "" (pat ++ b)) with (String.append pat b).
    pose proof (prefix_app pat b) as Hp.
    destruct (String.append pat b) as [|c s] eqn:E.
    + destruct pat; [reflexivity|discriminate].
    + by rewrite index_0_cons, Hp.
  - change (String.append (String c a) (pat ++ b))
      with (String c (String.append a (pat ++ b))).
    rewrite index_0_cons.
    destruct (String.prefix pat _); [reflexivity|].
    by destruct (String.index 0 pat _).
Qed.

(** X24. An error is retried when its status is 429 or 503, whatever its
    message, and when its message contains [429], [503] or
    [Resource has been exhausted] anywhere, whatever its status; an error
    with neither status nor message, or with another status and an empty
    message, is not. *)
Theorem X24_retryable_errors :
  (∀ m, isRetryable (mkError (Some 429%Z) m) = true) ∧
  (∀ m, isRetryable (mkError (Some 503%Z) m) = true) ∧
  (∀ st a b, isRetryable (mkError st (Some (a ++ "429" ++ b)%string)) = true) ∧
  (∀ st a b, isRetryable (mkError st (Some (a ++ "503" ++ b)%string)) = true) ∧
  (∀ st a b,
     isRetryable
       (mkError st (Some (a ++ "Resource has been exhausted" ++ b)%string))
     = true) ∧
  isRetryable (mkError None None) = false ∧
  (∀ st, st ≠ 429%Z → st ≠ 503%Z →
         isRetryable (mkError (Some st) (Some "")) = false ∧
         isRetryable (mkError (Some st) None) = false).
Proof.
  assert (Hmsg : ∀ st a pat b,
            pat ≠ ""%string →
            (includes (a ++ pat ++ b) "429" || includes (a ++ pat ++ b) "503"
             || includes (a ++ pat ++ b) "Resource has been exhausted") = true →
            isRetryable (mkError st (Some (a ++ pat ++ b)%string)) = true).
  { intros st a pat b Hpat Hinc. unfold isRetryable. cbn [status message].
    rewrite Hinc.
    assert (String.eqb (a ++ pat ++ b) "" = false) as ->.
    { apply String.eqb_neq. destruct a; [|discriminate].
      destruct pat; [done|discriminate]. }
    cbn. by rewrite !orb_true_r. }
  split; [intros m; reflexivity|]. split; [intros m; reflexivity|].
  split; [|split; [|split; [|split; [reflexivity|intros st H1 H2; split]]]].
  - intros st a b. apply Hmsg; [discriminate|]. by rewrite includes_app.
  - intros st a b. apply Hmsg; [discriminate|].
    by rewrite (includes_app a "503" b), orb_true_r.
  - intros st a b. apply Hmsg; [discriminate|].
    by rewrite (includes_app a "Resource has been exhausted" b), orb_true_r.
  - unfold isRetryable. cbn.
    destruct (Z.eqb_spec st 429); [done|]. by destruct (Z.eqb_spec st 503).
  - unfold isRetryable. cbn.
    destruct (Z.eqb_spec st 429); [done|]. by destruct (Z.eqb_spec st 503).
Qed.

End RetryableFacts.
